(** * pdf_compressor: a shallow embedding of [main.py]

    The program walks an input directory, plans one Ghostscript invocation
    per PDF found, runs the invocations in a process pool and prints a
    summary.  Everything it does goes through the file system, the
    subprocess interface and the terminal, so the embedding is a state
    and exception monad over a small model of those three.

    Modelling choices, all stated where they are made:
    - [str] is [string]; only ASCII letters change case and only ASCII
      white space is stripped;
    - [pathlib.Path] is the list of its components;
    - the file system is a tree whose directories list their entries in
      [os.scandir] order;
    - Python's [int] is [Z], its [float] results are exact rationals [Q];
    - the pool runs the tasks one after another, in submission order,
      and hands their futures back in any order. *)

From Stdlib Require Import List String Ascii ZArith QArith Lia Bool Arith Permutation.
Import ListNotations.

Local Open Scope string_scope.
Local Open Scope list_scope.

(** ** Python strings *)

Module Str.

Definition is_upper (c : ascii) : bool :=
  let n := nat_of_ascii c in (65 <=? n)%nat && (n <=? 90)%nat.

Definition lower_char (c : ascii) : ascii :=
  if is_upper c then ascii_of_nat (nat_of_ascii c + 32) else c.

(** [s.lower()] *)
Fixpoint lower (s : string) : string :=
  match s with
  | EmptyString => EmptyString
  | String c s' => String (lower_char c) (lower s')
  end.

Fixpoint drop (n : nat) (s : string) : string :=
  match n, s with
  | O, _ => s
  | S n', String _ s' => drop n' s'
  | S _, EmptyString => EmptyString
  end.

Fixpoint take (n : nat) (s : string) : string :=
  match n, s with
  | O, _ => EmptyString
  | S n', String c s' => String c (take n' s')
  | S _, EmptyString => EmptyString
  end.

(** [s.endswith(suffix)]: the last [len(suffix)] characters of [s] are
    [suffix]. *)
Definition endswith (s suffix : string) : bool :=
  (String.length suffix <=? String.length s)%nat
  && String.eqb (drop (String.length s - String.length suffix) s) suffix.

(** The characters [str.strip()] removes, within ASCII: tab, line feed,
    vertical tab, form feed, carriage return, the four separators
    0x1c..0x1f, and the space. *)
Definition is_space (c : ascii) : bool :=
  let n := nat_of_ascii c in
  ((9 <=? n)%nat && (n <=? 13)%nat) || ((28 <=? n)%nat && (n <=? 32)%nat).

Fixpoint lstrip (p : ascii -> bool) (s : string) : string :=
  match s with
  | EmptyString => EmptyString
  | String c s' => if p c then lstrip p s' else s
  end.

Fixpoint rstrip (p : ascii -> bool) (s : string) : string :=
  match s with
  | EmptyString => EmptyString
  | String c s' =>
      match rstrip p s' with
      | EmptyString => if p c then EmptyString else String c EmptyString
      | r => String c r
      end
  end.

(** [s.strip(chars)], the set [chars] given as a predicate. *)
Definition strip_chars (p : ascii -> bool) (s : string) : string :=
  rstrip p (lstrip p s).

(** [s.strip()] *)
Definition strip (s : string) : string := strip_chars is_space s.

(** [sep.join(parts)] *)
Fixpoint join (sep : string) (parts : list string) : string :=
  match parts with
  | [] => EmptyString
  | [x] => x
  | x :: rest => x ++ sep ++ join sep rest
  end.

(** [s.split(sep)] for a one-character separator. *)
Fixpoint split (sep : ascii) (s : string) : list string :=
  match s with
  | EmptyString => [EmptyString]
  | String c s' =>
      if Ascii.eqb c sep then EmptyString :: split sep s'
      else match split sep s' with
           | [] => [String c EmptyString]
           | w :: ws => String c w :: ws
           end
  end.

End Str.

(** ** Paths

    A [pathlib.Path] is the list of its components, outermost first; the
    empty list is [Path(".")].  [os.sep] is taken to be the slash. *)

Definition Path := list string.

Definition os_sep : string := "/".

(** [str(path)] *)
Definition str_of_Path (p : Path) : string :=
  match p with
  | [] => "."
  | _ => Str.join os_sep p
  end.

(** [Path(s)]: split at the separator; empty components and [.] are
    dropped, as [pathlib] does when it normalises. *)
Definition Path_of_str (s : string) : Path :=
  filter (fun c => negb (String.eqb c "" || String.eqb c "."))
         (Str.split "/"%char s).

(** [a / b] for a relative [b], and [os.path.join(root, file)] followed by
    [Path(...)] for a plain file name. *)
Definition joinpath (a b : Path) : Path := a ++ b.

(** [path.parent] *)
Definition parent (p : Path) : Path := removelast p.

(** [path.name] *)
Definition name (p : Path) : string := last p "".

(** ** Exceptions and results *)

Inductive exn : Type :=
| FileNotFoundError
| FileExistsError
| NotADirectoryError
| CalledProcessError (returncode : Z) (stderr : string)
| ValueError
| ZeroDivisionError
| EOFError
| SystemExit (code : Z).

(** [SystemExit] derives from [BaseException] only; every other exception
    of the model is an [Exception]. *)
Definition is_Exception (e : exn) : bool :=
  match e with
  | SystemExit _ => false
  | _ => true
  end.

Inductive result (A : Type) : Type :=
| Ok (a : A)
| Raise (e : exn).
Arguments Ok {A} a.
Arguments Raise {A} e.

(** ** The file system *)

#[warnings="-register-all"]
Inductive node : Type :=
| File (size : Z)                       (* a regular file *)
| Fifo                                  (* a named pipe: neither regular nor a directory *)
| Dir (entries : list (string * node)). (* a directory, in [os.scandir] order *)

Definition is_dir (n : node) : bool :=
  match n with Dir _ => true | _ => false end.

Definition is_regular (n : node) : bool :=
  match n with File _ => true | _ => false end.

Fixpoint assoc (k : string) (es : list (string * node)) : option node :=
  match es with
  | [] => None
  | (k', v) :: es' => if String.eqb k k' then Some v else assoc k es'
  end.

Fixpoint assoc_set (k : string) (v : node) (es : list (string * node))
  : list (string * node) :=
  match es with
  | [] => [(k, v)]
  | (k', v') :: es' =>
      if String.eqb k k' then (k, v) :: es' else (k', v') :: assoc_set k v es'
  end.

(** What [os.stat] sees at a path: [Ok] of the entry, [FileNotFoundError]
    when a component is missing, [NotADirectoryError] when the path
    passes through something that is not a directory. *)
Fixpoint stat (t : node) (p : Path) : result node :=
  match p with
  | [] => Ok t
  | c :: rest =>
      match t with
      | Dir es =>
          match assoc c es with
          | Some child => stat child rest
          | None => Raise FileNotFoundError
          end
      | _ => Raise NotADirectoryError
      end
  end.

(** [st_size] of a directory on the modelled file system. *)
Definition dir_st_size : Z := 4096.

(** [os.path.getsize(path)] *)
Definition getsize_fs (t : node) (p : Path) : result Z :=
  match stat t p with
  | Ok (File n) => Ok n
  | Ok Fifo => Ok 0%Z
  | Ok (Dir _) => Ok dir_st_size
  | Raise e => Raise e
  end.

(** The chain of fresh directories [c1/c2/.../cn] below a new entry. *)
Fixpoint fresh_dirs (p : Path) : node :=
  match p with
  | [] => Dir []
  | c :: rest => Dir [(c, fresh_dirs rest)]
  end.

(** [path.mkdir(parents=True, exist_ok=True)]: existing directories are
    kept, missing ones are created, and an existing entry that is not a
    directory makes it raise ([FileExistsError] for the last component,
    [NotADirectoryError] for an ancestor). *)
Fixpoint mkdir_fs (t : node) (p : Path) : result node :=
  match p with
  | [] =>
      match t with
      | Dir _ => Ok t
      | _ => Raise FileExistsError
      end
  | c :: rest =>
      match t with
      | Dir es =>
          match assoc c es with
          | Some child =>
              match mkdir_fs child rest with
              | Ok child' => Ok (Dir (assoc_set c child' es))
              | Raise e => Raise e
              end
          | None => Ok (Dir (es ++ [(c, fresh_dirs rest)]))
          end
      | _ => Raise NotADirectoryError
      end
  end.

(** Creating or replacing the regular file at [p] with one of [size]
    bytes; used by models of the external tool.  [None] when the parent
    is not an existing directory or [p] is a directory. *)
Fixpoint write_file (t : node) (p : Path) (size : Z) : option node :=
  match p with
  | [] => None
  | [c] =>
      match t with
      | Dir es =>
          match assoc c es with
          | Some (Dir _) => None
          | _ => Some (Dir (assoc_set c (File size) es))
          end
      | _ => None
      end
  | c :: rest =>
      match t with
      | Dir es =>
          match assoc c es with
          | Some child =>
              match write_file child rest size with
              | Some child' => Some (Dir (assoc_set c child' es))
              | None => None
              end
          | None => None
          end
      | _ => None
      end
  end.

(** ** Path Scanner *)

(** [os.walk(top)], top-down: the triple of a directory (its path, the
    names of its sub-directories, the names of everything else in it),
    then the walk of each sub-directory in order. *)
Fixpoint walk (top : Path) (t : node) : list (Path * list string * list string) :=
  match t with
  | Dir es =>
      (top,
       map fst (filter (fun e => is_dir (snd e)) es),
       map fst (filter (fun e => negb (is_dir (snd e))) es))
      :: (fix walk_entries (l : list (string * node)) :=
            match l with
            | [] => []
            | (n, c) :: l' => walk (joinpath top [n]) c ++ walk_entries l'
            end) es
  | _ => []
  end.

(** [os.walk(root_dir)] on the whole file system: a root that is missing
    or is not a directory yields nothing ([os.walk] ignores the error). *)
Definition os_walk (fs : node) (root_dir : Path) : list (Path * list string * list string) :=
  match stat fs root_dir with
  | Ok t => walk root_dir t
  | Raise _ => []
  end.

Definition is_pdf_name (file : string) : bool :=
  Str.endswith (Str.lower file) ".pdf".

(** The comprehension of [find_all_pdfs] over the triples of a walk:
    [for root, _, files in ...  for file in files if ...]. *)
Definition pdfs_of_walk (triples : list (Path * list string * list string))
  : list Path :=
  flat_map (fun '(root, _, files) =>
              map (fun file => joinpath root [file]) (filter is_pdf_name files))
           triples.

(** [find_all_pdfs(root_dir)] *)
Definition find_all_pdfs (fs : node) (root_dir : Path) : list Path :=
  pdfs_of_walk (os_walk fs root_dir).

(** [path.relative_to(base)]: the components after [base], or
    [ValueError] when [base] is not a prefix of [path]. *)
Fixpoint relative_to (p base : Path) {struct base} : result Path :=
  match base with
  | [] => Ok p
  | b :: base' =>
      match p with
      | c :: p' => if String.eqb c b then relative_to p' base' else Raise ValueError
      | [] => Raise ValueError
      end
  end.

(** ** The world: file system, terminal, class attributes *)

(** [class Stats]: its attributes are the process-wide accumulator. *)
Record Stats : Type := mkStats {
  total : Z;
  success : Z;
  failed : Z;
  errors : list string;
  original_size : Z;
  compressed_size : Z
}.

(** The values the class body gives the attributes when the module is
    loaded. *)
Definition Stats_init : Stats :=
  {| total := 0; success := 0; failed := 0; errors := [];
     original_size := 0; compressed_size := 0 |}.

(** The statistics once [Stats.total] is assigned. *)
Definition set_total (n : Z) (st : Stats) : Stats :=
  {| total := n; success := success st; failed := failed st; errors := errors st;
     original_size := original_size st; compressed_size := compressed_size st |}.

(** Lines 98-100: [Stats.success += 1] and the two sums. *)
Definition count_success (orig comp : Z) (st : Stats) : Stats :=
  {| total := total st;
     success := success st + 1;
     failed := failed st;
     errors := errors st;
     original_size := original_size st + orig;
     compressed_size := compressed_size st + comp |}.

(** Lines 102-103: [Stats.failed += 1] and [Stats.errors.append(path)]. *)
Definition count_failure (path : string) (st : Stats) : Stats :=
  {| total := total st;
     success := success st;
     failed := failed st + 1;
     errors := errors st ++ [path];
     original_size := original_size st;
     compressed_size := compressed_size st |}.

Inductive prompt : Type := AskInputDir | AskOutputDir | AskQuality.

(** One constructor per [print] of the program; the numbers printed are
    kept as numbers, the fixed text is not. *)
Inductive line : Type :=
| Banner
| Asked (p : prompt)
| DirNotFound (path : string)
| QualityMenu (row : nat)
| GsFound (version : string)
| GsMissing
| GsFailed (stderr : string)
| Found (n : Z)
| Rule
| SummaryTitle
| Processed (n : Z)
| Succeeded (n : Z)
| WithErrors (n : Z)
| SizeBefore (mb : Q)
| SizeAfter (mb : Q)
| Saved (mb ratio : Q)
| ErrorsTitle
| ErrorItem (path : string)
| Elapsed
| Thanks.

(** How a child process ended. *)
Inductive completed : Type :=
| NoSuchProgram
| Exited (returncode : Z) (out err : string).

(** What the program asks of the operating system, in the order asked;
    a child process is recorded with the way it ended. *)
Inductive event : Type :=
| EvSpawn (argv : list string) (c : completed)
| EvWalk (root : Path)
| EvMkdir (p : Path)
| EvGetsize (p : Path).

Record World : Type := mkWorld {
  fs : node;
  stdin : list string;
  stdout : list line;
  stats : Stats;
  trace : list event
}.

Definition with_fs (t : node) (w : World) : World :=
  {| fs := t; stdin := stdin w; stdout := stdout w; stats := stats w; trace := trace w |}.

Definition with_stdin (l : list string) (w : World) : World :=
  {| fs := fs w; stdin := l; stdout := stdout w; stats := stats w; trace := trace w |}.

Definition with_stats (s : Stats) (w : World) : World :=
  {| fs := fs w; stdin := stdin w; stdout := stdout w; stats := s; trace := trace w |}.

Definition emit (l : line) (w : World) : World :=
  {| fs := fs w; stdin := stdin w; stdout := stdout w ++ [l]; stats := stats w; trace := trace w |}.

Definition record (e : event) (w : World) : World :=
  {| fs := fs w; stdin := stdin w; stdout := stdout w; stats := stats w; trace := trace w ++ [e] |}.

(** ** The monad of the program: state that survives a raise *)

Definition M (A : Type) : Type := World -> result A * World.

Definition ret {A} (a : A) : M A := fun w => (Ok a, w).

Definition raise {A} (e : exn) : M A := fun w => (Raise e, w).

Definition bind {A B} (m : M A) (k : A -> M B) : M B :=
  fun w =>
    match m w with
    | (Ok a, w') => k a w'
    | (Raise e, w') => (Raise e, w')
    end.

Declare Scope py_scope.
Delimit Scope py_scope with py.
Notation "x <- m ;; k" := (bind m (fun x => k))
  (at level 100, m at next level, right associativity) : py_scope.
Notation "' pat <- m ;; k" := (bind m (fun pat => k))
  (at level 100, pat pattern, m at next level, right associativity) : py_scope.
Notation "m ;; k" := (bind m (fun _ => k))
  (at level 100, right associativity) : py_scope.
Local Open Scope py_scope.

(** [try: body  except Exception: handler] *)
Definition try_except {A} (body : M A) (handler : exn -> M A) : M A :=
  fun w =>
    match body w with
    | (Ok a, w') => (Ok a, w')
    | (Raise e, w') => if is_Exception e then handler e w' else (Raise e, w')
    end.

Definition lift {A} (r : result A) : M A := fun w => (r, w).

Definition print (l : line) : M unit := fun w => (Ok tt, emit l w).

Definition get_stats : M Stats := fun w => (Ok (stats w), w).

Definition set_stats (s : Stats) : M unit := fun w => (Ok tt, with_stats s w).

(** [for x in xs: body(x)] *)
Fixpoint for_each {A} (xs : list A) (body : A -> M unit) : M unit :=
  match xs with
  | [] => ret tt
  | x :: xs' => body x ;; for_each xs' body
  end.

(** [input(prompt)]: the prompt is written, one line is read; an
    exhausted standard input raises [EOFError]. *)
Definition input (p : prompt) : M string :=
  fun w =>
    let w1 := emit (Asked p) w in
    match stdin w1 with
    | [] => (Raise EOFError, w1)
    | l :: rest => (Ok l, with_stdin rest w1)
    end.

(** [os.path.getsize(path)] *)
Definition getsize (p : Path) : M Z :=
  fun w => (getsize_fs (fs w) p, record (EvGetsize p) w).

(** [path.mkdir(parents=True, exist_ok=True)] *)
Definition mkdir (p : Path) : M unit :=
  fun w =>
    let w1 := record (EvMkdir p) w in
    match mkdir_fs (fs w1) p with
    | Ok t => (Ok tt, with_fs t w1)
    | Raise e => (Raise e, w1)
    end.

(** [os.path.isdir(s)]: false for the empty string, else whether the
    path leads to a directory. *)
Definition isdir_fs (t : node) (s : string) : bool :=
  if String.eqb s "" then false
  else match stat t (Path_of_str s) with
       | Ok n => is_dir n
       | Raise _ => false
       end.

(** Python's [a / b] on integers; the float result is kept exact. *)
Definition truediv (a b : Z) : result Q :=
  if (b =? 0)%Z then Raise ZeroDivisionError
  else Ok (Qred (inject_Z a / inject_Z b)).

(** [d.get(key, default)] on a dict literal, as its list of items. *)
Fixpoint dict_get (d : list (string * string)) (key default : string) : string :=
  match d with
  | [] => default
  | (k, v) :: d' => if String.eqb key k then v else dict_get d' key default
  end.

(** ** The executor's completion order

    [as_completed] yields the futures as they finish.  Which one finishes
    next is the scheduler's choice: the [k]-th choice, reduced modulo the
    number of futures still pending, picks the next one. *)

Fixpoint remove_nth {A} (k : nat) (l : list A) : list A :=
  match l, k with
  | [], _ => []
  | _ :: l', O => l'
  | x :: l', S k' => x :: remove_nth k' l'
  end.

Fixpoint completion_order {A} (choices : list nat) (pending : list A) (fuel : nat)
  : list A :=
  match fuel, pending with
  | S fuel', d :: _ =>
      let k := (hd O choices mod List.length pending)%nat in
      nth k pending d :: completion_order (tl choices) (remove_nth k pending) fuel'
  | _, _ => []
  end.

Definition as_completed {A} (choices : list nat) (futures : list A) : list A :=
  completion_order choices futures (List.length futures).

(** ** The program *)

Section Program.

(** The programs on [PATH]: what running [argv] returns and what it
    does to the file system. *)
Variable programs : list string -> node -> completed * node.

(** The order in which the pool's workers finish. *)
Variable choices : list nat.

(** [subprocess.run(argv, check=True)]: [FileNotFoundError] when there
    is no such program, [CalledProcessError] on a non-zero return code,
    else the captured output. *)
Definition subprocess_run (argv : list string) : M string :=
  fun w =>
    let (c, t) := programs argv (fs w) in
    let w1 := with_fs t (record (EvSpawn argv c) w) in
    match c with
    | NoSuchProgram => (Raise FileNotFoundError, w1)
    | Exited code out err =>
        if (code =? 0)%Z then (Ok out, w1)
        else (Raise (CalledProcessError code err), w1)
    end.

Definition quote_or_space (c : ascii) : bool :=
  Ascii.eqb c (ascii_of_nat 34) || Ascii.eqb c " "%char.

(** [prompt_directory]: the [while True] loop reads one line per turn, so
    it is written by recursion on [lines], the lines standard input holds
    when the loop is entered; once they are used up [input] raises
    [EOFError]. *)
Fixpoint prompt_directory_loop (prompt_text : prompt) (lines : list string)
  : M Path :=
  match lines with
  | [] => _ <- input prompt_text ;; raise EOFError
  | _ :: lines' =>
      l <- input prompt_text ;;
      let path := Str.strip (Str.strip_chars quote_or_space l) in
      fun w =>
        if isdir_fs (fs w) path then (Ok (Path_of_str path), w)
        else (print (DirNotFound path) ;; prompt_directory_loop prompt_text lines') w
  end.

Definition prompt_directory (prompt_text : prompt) : M Path :=
  fun w => prompt_directory_loop prompt_text (stdin w) w.

Definition quality_choices : list (string * string) :=
  [("1", "/screen"); ("2", "/ebook"); ("3", "/printer");
   ("4", "/prepress"); ("5", "/default")].

Definition prompt_quality : M string :=
  print (QualityMenu 0) ;;
  print (QualityMenu 1) ;;
  print (QualityMenu 2) ;;
  print (QualityMenu 3) ;;
  print (QualityMenu 4) ;;
  print (QualityMenu 5) ;;
  l <- input AskQuality ;;
  let choice := Str.strip l in
  ret (dict_get quality_choices choice "/ebook").

Definition gs_command (input_path output_path : Path) (quality : string)
  : list string :=
  ["gswin64c";
   "-sDEVICE=pdfwrite";
   "-dCompatibilityLevel=1.4";
   ("-dPDFSETTINGS=" ++ quality)%string;
   "-dNOPAUSE";
   "-dQUIET";
   "-dBATCH";
   ("-sOutputFile=" ++ str_of_Path output_path)%string;
   str_of_Path input_path].

Definition compress_pdf (input_path output_path : Path) (quality : string)
  : M (bool * Z * Z * string) :=
  mkdir (parent output_path) ;;
  try_except
    (original_size <- getsize input_path ;;
     _ <- subprocess_run (gs_command input_path output_path quality) ;;
     compressed_size <- getsize output_path ;;
     ret (true, original_size, compressed_size, str_of_Path input_path))
    (fun _ => ret (false, 0%Z, 0%Z, str_of_Path input_path)).

(** [find_all_pdfs], as an action of the program. *)
Definition scan (root_dir : Path) : M (list Path) :=
  fun w => (Ok (find_all_pdfs (fs w) root_dir), record (EvWalk root_dir) w).

(** Lines 84-88: the loop that builds [tasks]. *)
Fixpoint plan_tasks (input_dir output_dir : Path) (pdf_files : list Path)
  : result (list (Path * Path)) :=
  match pdf_files with
  | [] => Ok []
  | input_file :: rest =>
      match relative_to input_file input_dir with
      | Raise e => Raise e
      | Ok relative_path =>
          let output_file := joinpath output_dir relative_path in
          match plan_tasks input_dir output_dir rest with
          | Raise e => Raise e
          | Ok tasks => Ok ((input_file, output_file) :: tasks)
          end
      end
  end.

(** Lines 91-94, the submissions: every task runs to its end and its
    return value or its exception is kept in its future, the futures in
    submission order.  A task that raises stops no other task. *)
Fixpoint run_pool (tasks : list (Path * Path)) (quality : string)
  : M (list (result (bool * Z * Z * string))) :=
  match tasks with
  | [] => ret []
  | (inp, out) :: rest =>
      fun w =>
        let (r, w1) := compress_pdf inp out quality w in
        (futures <- run_pool rest quality ;; ret (r :: futures)) w1
  end.

(** Lines 96-103: the body of the aggregation loop; [future.result()]
    returns the task's tuple or raises the task's exception again. *)
Definition aggregate_one (future : result (bool * Z * Z * string)) : M unit :=
  '(ok, orig, comp, path) <- lift future ;;
  st <- get_stats ;;
  if (ok : bool) then set_stats (count_success orig comp st)
  else set_stats (count_failure path st).

Definition MB : Z := 1024 * 1024.

(** Lines 105-120: the summary. *)
Definition print_summary : M unit :=
  print Rule ;;
  print SummaryTitle ;;
  st <- get_stats ;;
  print (Processed (total st)) ;;
  print (Succeeded (success st)) ;;
  print (WithErrors (failed st)) ;;
  (if (0 <? total st)%Z then
     let saved := (original_size st - compressed_size st)%Z in
     ratio <- (if (original_size st =? 0)%Z then ret 0%Q
               else q <- lift (truediv saved (original_size st)) ;;
                    ret (Qred (q * 100))) ;;
     before <- lift (truediv (original_size st) MB) ;;
     print (SizeBefore before) ;;
     after <- lift (truediv (compressed_size st) MB) ;;
     print (SizeAfter after) ;;
     saved_mb <- lift (truediv saved MB) ;;
     print (Saved saved_mb ratio)
   else ret tt) ;;
  (if (0 <? failed st)%Z then
     print ErrorsTitle ;;
     for_each (errors st) (fun err => print (ErrorItem err))
   else ret tt) ;;
  print Rule.

Definition process_all (input_dir output_dir : Path) (quality : string) : M unit :=
  pdf_files <- scan input_dir ;;
  st <- get_stats ;;
  set_stats (set_total (Z.of_nat (List.length pdf_files)) st) ;;
  print (Found (Z.of_nat (List.length pdf_files))) ;;
  tasks <- lift (plan_tasks input_dir output_dir pdf_files) ;;
  futures <- run_pool tasks quality ;;
  for_each (as_completed choices futures) aggregate_one ;;
  print_summary.

Definition exit {A} (code : Z) : M A := raise (SystemExit code).

Definition version_probe : list string := ["gswin64c"; "--version"].

Definition check_ghostscript : M unit :=
  fun w =>
    match subprocess_run version_probe w with
    | (Ok out, w') => print (GsFound (Str.strip out)) w'
    | (Raise FileNotFoundError, w') => (print GsMissing ;; exit 1) w'
    | (Raise (CalledProcessError _ err), w') =>
        (print (GsFailed (Str.strip err)) ;; exit 1) w'
    | (Raise e, w') => (Raise e, w')
    end.

(** The [__main__] block. *)
Definition main : M unit :=
  print Banner ;;
  check_ghostscript ;;
  input_root <- prompt_directory AskInputDir ;;
  output_root <- prompt_directory AskOutputDir ;;
  quality <- prompt_quality ;;
  process_all input_root output_root quality ;;
  print Elapsed ;;
  print Thanks.

End Program.

(** ** A simulated tool and the two-file batch

    The input root [in] holds [a/1.pdf] (1000 bytes) and [b/2.pdf]
    (2000 bytes); the output root [out] is empty.  The simulated
    Ghostscript answers the version probe, writes an output half the size
    of an input named [1.pdf], and fails with return code 1, writing
    nothing, on any other input. *)

Module Scenario.

Definition tree : node :=
  Dir [("in", Dir [("a", Dir [("1.pdf", File 1000)]);
                   ("b", Dir [("2.pdf", File 2000)])]);
       ("out", Dir [])].

Definition output_of (arg : string) : Path :=
  Path_of_str (Str.drop (String.length "-sOutputFile=") arg).

Definition gs (argv : list string) (t : node) : completed * node :=
  match argv with
  | [_; "--version"] => (Exited 0 "10.02.1" "", t)
  | [_; _; _; _; _; _; _; out_arg; inp] =>
      if String.eqb (name (Path_of_str inp)) "1.pdf" then
        match getsize_fs t (Path_of_str inp) with
        | Ok n =>
            match write_file t (output_of out_arg) (n / 2) with
            | Some t' => (Exited 0 "" "", t')
            | None => (Exited 1 "" "cannot write", t)
            end
        | Raise _ => (Exited 1 "" "cannot read", t)
        end
      else (Exited 1 "" "damaged file", t)
  | _ => (Exited 2 "" "usage", t)
  end.

Definition world : World :=
  {| fs := tree; stdin := []; stdout := []; stats := Stats_init; trace := [] |}.

Definition input_root : Path := ["in"].
Definition output_root : Path := ["out"].

(** The same roots with nothing in the input root. *)
Definition empty_world : World :=
  with_fs (Dir [("in", Dir []); ("out", Dir [])]) world.

(** Statistics with a positive total and no byte counted: one file,
    which failed. *)
Definition one_failure : World :=
  with_stats {| total := 1; success := 0; failed := 1; errors := ["in/b/2.pdf"];
                original_size := 0; compressed_size := 0 |} world.

(** A machine without Ghostscript. *)
Definition no_gs (argv : list string) (t : node) : completed * node :=
  (NoSuchProgram, t).

(** Someone typing a wrong directory, then the input root between
    spaces, then the output root and a choice. *)
Definition typing : World :=
  with_stdin ["nope"; " in "; "out"; "3"] world.

(** The input [in/a/1.pdf] removed after it was found. *)
Definition vanished : World :=
  with_fs (Dir [("in", Dir [("a", Dir []); ("b", Dir [("2.pdf", File 2000)])]);
                ("out", Dir [])]) world.

(** Ghostscript answering the probe, and nobody at the keyboard. *)
Definition unattended : World := world.

(** Someone typing wrong directories until standard input ends. *)
Definition mistyping : World :=
  with_stdin ["nope"; "in/a/1.pdf"] world.

End Scenario.

(** The same batch with the output root blocked: [out/a] already exists
    and is a regular file, so the directory for [a/1.pdf]'s output cannot
    be made. *)

Module Blocked.

Definition tree : node :=
  Dir [("in", Dir [("a", Dir [("1.pdf", File 1000)]);
                   ("b", Dir [("2.pdf", File 2000)])]);
       ("out", Dir [("a", File 7)])].

Definition world : World :=
  {| fs := tree; stdin := []; stdout := []; stats := Stats_init; trace := [] |}.

End Blocked.

(** ** The vocabulary of the specification *)

Module Spec.

(** The five quality profiles. *)
Inductive profile : Type := screen | ebook | printer | prepress | default.

(** The Ghostscript setting that selects a profile. *)
Definition setting (p : profile) : string :=
  match p with
  | screen => "/screen"
  | ebook => "/ebook"
  | printer => "/printer"
  | prepress => "/prepress"
  | default => "/default"
  end.

(** The menu: 1 to 5 name the profiles in order, anything else is
    [ebook]. *)
Definition profile_of_choice (choice : string) : profile :=
  if String.eqb choice "1" then screen
  else if String.eqb choice "2" then ebook
  else if String.eqb choice "3" then printer
  else if String.eqb choice "4" then prepress
  else if String.eqb choice "5" then default
  else ebook.

Definition eq_ignoring_case (a b : string) : Prop :=
  Str.lower a = Str.lower b.

(** [file] ends with [suffix] up to the case of its letters. *)
Definition ends_with_ignoring_case (file suffix : string) : Prop :=
  exists stem ext : string,
    file = (stem ++ ext)%string /\ eq_ignoring_case ext suffix.

(** [beneath t rel x]: following [rel] from the directory [t], through
    directories only, leads to the entry [x]; [rel] is not empty. *)
Inductive beneath : node -> Path -> node -> Prop :=
| beneath_entry : forall es n x,
    In (n, x) es -> beneath (Dir es) [n] x
| beneath_deeper : forall es n sub rel x,
    In (n, sub) es -> beneath sub rel x -> beneath (Dir es) (n :: rel) x.

(** The entries below [root] that carry the suffix [.pdf] and satisfy
    [kind]. *)
Definition pdf_below (kind : node -> bool) (fs : node) (root p : Path) : Prop :=
  exists t rel x,
    stat fs root = Ok t /\ p = joinpath root rel /\ beneath t rel x
    /\ kind x = true /\ ends_with_ignoring_case (name p) ".pdf".

(** [after] is [before] with the counts, sums and failures of [run]
    put on top; the total is the one [run] has. *)
Definition on_top_of (before run after : Stats) : Prop :=
  total after = total run
  /\ success after = (success before + success run)%Z
  /\ failed after = (failed before + failed run)%Z
  /\ errors after = errors before ++ errors run
  /\ original_size after = (original_size before + original_size run)%Z
  /\ compressed_size after = (compressed_size before + compressed_size run)%Z.

(** The probe failed: the tool is missing, or it returned non-zero. *)
Definition probe_failed (c : completed) : Prop :=
  match c with
  | NoSuchProgram => True
  | Exited code _ _ => code <> 0%Z
  end.

End Spec.

(** A directory holding one named pipe called [x.pdf]. *)
Definition pipe_tree : node := Dir [("x.pdf", Fifo)].

(** ** Frames

    What a run of the pool leaves of a world: a new file system and more
    events; what a run of the summary leaves: more lines. *)

Definition extend (t : node) (evs : list event) (w : World) : World :=
  {| fs := t; stdin := stdin w; stdout := stdout w; stats := stats w;
     trace := trace w ++ evs |}.

Definition emit_all (ls : list line) (w : World) : World :=
  {| fs := fs w; stdin := stdin w; stdout := stdout w ++ ls; stats := stats w;
     trace := trace w |}.

(** An action whose events are added after those already recorded. *)
Definition grows {A} (m : M A) : Prop :=
  forall w, exists evs, trace (snd (m w)) = trace w ++ evs.

(** The lines of the summary, written out for given statistics. *)
Definition size_lines (st : Stats) : list line :=
  if (0 <? total st)%Z then
    let saved := (original_size st - compressed_size st)%Z in
    [SizeBefore (Qred (inject_Z (original_size st) / inject_Z MB));
     SizeAfter (Qred (inject_Z (compressed_size st) / inject_Z MB));
     Saved (Qred (inject_Z saved / inject_Z MB))
           (if (original_size st =? 0)%Z then 0%Q
            else Qred (Qred (inject_Z saved / inject_Z (original_size st)) * 100))]
  else [].

Definition error_lines (st : Stats) : list line :=
  if (0 <? failed st)%Z then ErrorsTitle :: map ErrorItem (errors st) else [].

Definition summary_lines (st : Stats) : list line :=
  [Rule; SummaryTitle; Processed (total st); Succeeded (success st);
   WithErrors (failed st)]
  ++ size_lines st ++ error_lines st ++ [Rule].

(** ** Vocabulary for the further properties *)

(** What [prompt_directory] makes of the line typed: quotes and spaces,
    then white space, are stripped from both ends. *)
Definition typed_path (l : string) : string :=
  Str.strip (Str.strip_chars quote_or_space l).

(** The four components of the tuple [compress_pdf] returns. *)
Definition succeeded (r : bool * Z * Z * string) : bool :=
  let '(ok, _, _, _) := r in ok.

Definition size_before (r : bool * Z * Z * string) : Z :=
  let '(_, orig, _, _) := r in orig.

Definition size_after (r : bool * Z * Z * string) : Z :=
  let '(_, _, comp, _) := r in comp.

Definition path_of (r : bool * Z * Z * string) : string :=
  let '(_, _, _, path) := r in path.

(** [sum(sizes)] *)
Definition sum_sizes (l : list Z) : Z := fold_right Z.add 0%Z l.

(** The exceptions making a directory can raise. *)
Definition mkdir_error (e : exn) : Prop :=
  e = FileExistsError \/ e = NotADirectoryError.

(** What the future of a task can hold: a tuple that names the task's
    input, with sizes 0 when it reports a failure, or the exception of
    making the output directory. *)
Definition future_of (task : Path * Path) (f : result (bool * Z * Z * string))
  : Prop :=
  match f with
  | Ok r =>
      path_of r = str_of_Path (fst task)
      /\ (succeeded r = false -> size_before r = 0%Z /\ size_after r = 0%Z)
  | Raise e => mkdir_error e
  end.

(** A file system in which no directory lists a name twice, as no real
    directory does. *)
#[warnings="-register-all"]
Inductive distinct_names : node -> Prop :=
| distinct_File : forall n, distinct_names (File n)
| distinct_Fifo : distinct_names Fifo
| distinct_Dir : forall es,
    NoDup (map fst es) ->
    Forall (fun e => distinct_names (snd e)) es ->
    distinct_names (Dir es).

(** Statistics in which the failure counter counts the failure list. *)
Definition failures_counted (st : Stats) : Prop :=
  failed st = Z.of_nat (List.length (errors st)).

(** * Properties *)

(** ** Strings *)

Lemma length_lower : forall s, String.length (Str.lower s) = String.length s.
Proof. induction s as [|c s IH]; simpl; congruence. Qed.

Lemma lower_append : forall a b,
  Str.lower (a ++ b) = (Str.lower a ++ Str.lower b)%string.
Proof. induction a as [|c a IH]; intros b; simpl; [reflexivity | now rewrite IH]. Qed.

Lemma drop_lower : forall n s, Str.drop n (Str.lower s) = Str.lower (Str.drop n s).
Proof.
  induction n as [|n IH]; intros s; [reflexivity|].
  destruct s as [|c s]; simpl; [reflexivity | apply IH].
Qed.

Lemma take_drop : forall n s, (Str.take n s ++ Str.drop n s)%string = s.
Proof.
  induction n as [|n IH]; intros s; [reflexivity|].
  destruct s as [|c s]; simpl; [reflexivity | now rewrite IH].
Qed.

Lemma length_append : forall a b,
  String.length (a ++ b) = (String.length a + String.length b)%nat.
Proof. induction a as [|c a IH]; intros b; simpl; [reflexivity | now rewrite IH]. Qed.

Lemma drop_append : forall a b, Str.drop (String.length a) (a ++ b) = b.
Proof. induction a as [|c a IH]; intros b; simpl; [reflexivity | apply IH]. Qed.

(** [endswith] holds exactly of the strings that are something followed
    by the suffix. *)
Lemma endswith_spec : forall s suffix,
  Str.endswith s suffix = true <-> exists stem, s = (stem ++ suffix)%string.
Proof.
  intros s suffix; unfold Str.endswith; split.
  - intros H. apply andb_true_iff in H as [_ H].
    apply String.eqb_eq in H.
    remember (String.length s - String.length suffix)%nat as k eqn:Hk.
    clear Hk. subst suffix.
    exists (Str.take k s). symmetry; apply take_drop.
  - intros [stem ->]. apply andb_true_iff; split.
    + apply Nat.leb_le. rewrite length_append. lia.
    + apply String.eqb_eq. rewrite length_append.
      replace (String.length stem + String.length suffix - String.length suffix)%nat
        with (String.length stem) by lia.
      apply drop_append.
Qed.

(** The scanner's test is the specification's: the name ends with
    [.pdf] whatever the case of its letters. *)
Lemma is_pdf_name_spec : forall file,
  is_pdf_name file = true <-> Spec.ends_with_ignoring_case file ".pdf".
Proof.
  intros file; unfold is_pdf_name, Spec.ends_with_ignoring_case, Spec.eq_ignoring_case.
  split.
  - intros H. unfold Str.endswith in H.
    apply andb_true_iff in H as [_ H]. apply String.eqb_eq in H.
    rewrite length_lower, drop_lower in H.
    exists (Str.take (String.length file - String.length ".pdf") file),
           (Str.drop (String.length file - String.length ".pdf") file).
    split; [symmetry; apply take_drop | exact H].
  - intros (stem & ext & -> & H). apply endswith_spec.
    exists (Str.lower stem). rewrite lower_append, H. reflexivity.
Qed.

(** ** The quality prompt *)

Lemma dict_get_quality : forall choice,
  dict_get quality_choices choice "/ebook"
  = Spec.setting (Spec.profile_of_choice choice).
Proof.
  intros choice; unfold Spec.profile_of_choice; simpl.
  repeat (destruct (String.eqb choice _); [reflexivity|]).
  reflexivity.
Qed.

(** C8, as the code has it: the line read is stripped of the white space
    around it; the choices 1 to 5 then select screen, ebook, printer,
    prepress and default, and any other choice, the empty one included,
    selects ebook.  One line of standard input is consumed. *)
Theorem prompt_quality_maps_stripped_choice : forall w line rest,
  fst (prompt_quality (with_stdin (line :: rest) w))
  = Ok (Spec.setting (Spec.profile_of_choice (Str.strip line)))
  /\ stdin (snd (prompt_quality (with_stdin (line :: rest) w))) = rest.
Proof.
  intros w line rest; unfold prompt_quality, bind, print, input, ret.
  cbn -[dict_get quality_choices Str.strip].
  rewrite dict_get_quality. split; reflexivity.
Qed.

(** C8, as it is written, fails: the line [" 1"] is none of the five
    choices, yet it selects screen and not ebook. *)
Lemma prompt_quality_unstripped_counterexample :
  ~ (forall w line rest,
       fst (prompt_quality (with_stdin (line :: rest) w))
       = Ok (Spec.setting (Spec.profile_of_choice line))).
Proof.
  intros H. specialize (H Scenario.world " 1" []).
  vm_compute in H. discriminate H.
Qed.

(** ** Path Scanner *)

(** Induction on a file system tree: a directory may assume the property
    of every entry it lists. *)
Lemma node_induction (P : node -> Prop) :
  (forall n, P (File n)) ->
  P Fifo ->
  (forall es, Forall (fun e => P (snd e)) es -> P (Dir es)) ->
  forall t, P t.
Proof.
  intros HFile HFifo HDir. fix IH 1.
  intros [n | | es]; [apply HFile | apply HFifo |].
  apply HDir. induction es as [|[n c] es IHes]; constructor.
  - apply IH.
  - exact IHes.
Qed.

Lemma walk_Dir : forall top es,
  walk top (Dir es)
  = (top,
     map fst (filter (fun e => is_dir (snd e)) es),
     map fst (filter (fun e => negb (is_dir (snd e))) es))
    :: flat_map (fun e => walk (joinpath top [fst e]) (snd e)) es.
Proof.
  intros top es; simpl. f_equal.
  induction es as [|[n c] es IH]; simpl; [reflexivity | now rewrite IH].
Qed.

Lemma pdfs_of_walk_app : forall a b,
  pdfs_of_walk (a ++ b) = pdfs_of_walk a ++ pdfs_of_walk b.
Proof. intros a b; unfold pdfs_of_walk; apply flat_map_app. Qed.

Lemma in_pdfs_of_walk_flat_map : forall (A : Type) (f : A -> _) (l : list A) p,
  In p (pdfs_of_walk (flat_map f l)) <-> exists a, In a l /\ In p (pdfs_of_walk (f a)).
Proof.
  intros A f l p; induction l as [|a l IH]; simpl.
  - split; [intros [] | intros (a & [] & _)].
  - rewrite pdfs_of_walk_app, in_app_iff, IH. split.
    + intros [H | (b & Hb & H)]; [exists a | exists b]; auto.
    + intros (b & [-> | Hb] & H); [left | right; exists b]; auto.
Qed.

Lemma beneath_nonempty : forall t rel x, Spec.beneath t rel x -> rel <> [].
Proof. intros t rel x H; destruct H; discriminate. Qed.

Lemma last_cons_nonempty : forall (n : string) rel d,
  rel <> [] -> last (n :: rel) d = last rel d.
Proof. intros n [|c rel] d H; [contradiction | reflexivity]. Qed.

Lemma name_joinpath : forall root rel, rel <> [] -> name (joinpath root rel) = name rel.
Proof.
  intros root rel H; unfold name, joinpath.
  induction root as [|c root IH]; [reflexivity|].
  change ((c :: root) ++ rel) with (c :: (root ++ rel)).
  rewrite last_cons_nonempty; [exact IH|].
  intros E; apply app_eq_nil in E as [_ E]; contradiction.
Qed.

(** What a walk finds: the entries beneath the directory that are not
    directories and whose own name passes the suffix test. *)
Lemma walk_finds : forall t top p,
  In p (pdfs_of_walk (walk top t)) <->
  exists rel x,
    p = joinpath top rel /\ Spec.beneath t rel x
    /\ is_dir x = false /\ is_pdf_name (name rel) = true.
Proof.
  induction t as [n | | es IH] using node_induction; intros top p.
  - simpl; split; [intros [] | intros (rel & x & _ & H & _); inversion H].
  - simpl; split; [intros [] | intros (rel & x & _ & H & _); inversion H].
  - rewrite walk_Dir.
    match goal with
    | |- context [pdfs_of_walk (?a :: ?l)] =>
        change (a :: l) with ([a] ++ l); rewrite pdfs_of_walk_app
    end.
    rewrite in_app_iff, in_pdfs_of_walk_flat_map.
    rewrite Forall_forall in IH. split.
    + intros [H | ([n c] & Hin & H)].
      * unfold pdfs_of_walk in H; simpl in H. rewrite app_nil_r in H.
        apply in_map_iff in H as (file & <- & H).
        apply filter_In in H as [H Hpdf].
        apply in_map_iff in H as ([n x] & Hn & H). simpl in Hn; subst n.
        apply filter_In in H as [H Hx]. simpl in Hx.
        exists [file], x. repeat split; auto.
        -- now constructor.
        -- now destruct (is_dir x).
      * simpl in H. apply (IH _ Hin) in H as (rel & x & -> & Hb & Hx & Hpdf).
        exists (n :: rel), x. repeat split; auto.
        -- unfold joinpath. now rewrite <- app_assoc.
        -- econstructor; eauto.
        -- unfold name in *. rewrite last_cons_nonempty; [exact Hpdf|].
           eapply beneath_nonempty; eauto.
    + intros (rel & x & -> & Hb & Hx & Hpdf). inversion Hb; subst.
      * left. unfold pdfs_of_walk; simpl. rewrite app_nil_r.
        apply in_map_iff. exists n; split; [reflexivity|].
        apply filter_In; split; [|exact Hpdf].
        apply in_map_iff. exists (n, x); split; [reflexivity|].
        apply filter_In; split; [assumption|]. simpl. now rewrite Hx.
      * right. exists (n, sub); split; [assumption|]. simpl.
        apply (IH (n, sub)); [assumption|].
        exists rel0, x. repeat split; auto.
        -- unfold joinpath. now rewrite <- app_assoc.
        -- unfold name in *. rewrite last_cons_nonempty in Hpdf; [exact Hpdf|].
           eapply beneath_nonempty; eauto.
Qed.

(** C3, as the code has it: the scanner returns exactly the entries at
    any depth beneath the root that are not directories (regular files,
    and named pipes and the like as well) and whose name ends with
    [.pdf] whatever the case of its letters. *)
Theorem find_all_pdfs_finds_non_directories : forall fs root_dir p,
  In p (find_all_pdfs fs root_dir)
  <-> Spec.pdf_below (fun x => negb (is_dir x)) fs root_dir p.
Proof.
  intros fs root_dir p; unfold find_all_pdfs, os_walk, Spec.pdf_below.
  destruct (stat fs root_dir) as [t | e].
  - rewrite walk_finds. split.
    + intros (rel & x & -> & Hb & Hx & Hpdf).
      exists t, rel, x. repeat split; auto.
      * now rewrite Hx.
      * rewrite name_joinpath by (eapply beneath_nonempty; eauto).
        now apply is_pdf_name_spec.
    + intros (t' & rel & x & Ht & -> & Hb & Hx & Hpdf).
      injection Ht as <-. exists rel, x. repeat split; auto.
      * now destruct (is_dir x).
      * rewrite name_joinpath in Hpdf by (eapply beneath_nonempty; eauto).
        now apply is_pdf_name_spec.
  - simpl. split; [intros [] | intros (t & rel & x & Ht & _); discriminate Ht].
Qed.

(** C3, as it is written, fails: in a directory that holds a named pipe
    called [x.pdf] the scanner returns [x.pdf], which is not a regular
    file. *)
Lemma find_all_pdfs_regular_counterexample :
  ~ (forall fs root_dir p,
       In p (find_all_pdfs fs root_dir) <-> Spec.pdf_below is_regular fs root_dir p).
Proof.
  intros H. destruct (H pipe_tree [] ["x.pdf"]) as [H1 _].
  destruct H1 as (t & rel & x & Ht & Hp & Hb & Hx & _).
  - simpl; auto.
  - injection Ht as <-. simpl in Hp; subst rel.
    inversion Hb as [es n y Hin | es n sub rel' y Hin Hsub]; subst.
    + destruct Hin as [E | []]. injection E as <-. discriminate Hx.
    + inversion Hsub.
Qed.

(** ** Task Planner *)

Lemma relative_to_joinpath : forall base rel,
  relative_to (joinpath base rel) base = Ok rel.
Proof.
  induction base as [|b base IH]; intros rel; simpl; [reflexivity|].
  rewrite String.eqb_refl. apply IH.
Qed.

Lemma find_all_pdfs_below_root : forall fs root_dir p,
  In p (find_all_pdfs fs root_dir) -> exists rel, p = joinpath root_dir rel.
Proof.
  intros fs root_dir p; unfold find_all_pdfs, os_walk.
  destruct (stat fs root_dir) as [t | e]; [|intros []].
  rewrite walk_finds. intros (rel & _ & -> & _). now exists rel.
Qed.

Lemma plan_tasks_mirrors : forall input_dir output_dir pdf_files,
  (forall p, In p pdf_files -> exists rel, p = joinpath input_dir rel) ->
  exists tasks,
    plan_tasks input_dir output_dir pdf_files = Ok tasks
    /\ map fst tasks = pdf_files
    /\ Forall (fun task => exists rel,
                 fst task = joinpath input_dir rel
                 /\ snd task = joinpath output_dir rel) tasks.
Proof.
  intros input_dir output_dir; induction pdf_files as [|p files IH]; intros H.
  - exists []; simpl; auto.
  - destruct IH as (tasks & Hplan & Hfst & Hall).
    { intros q Hq; apply H; now right. }
    destruct (H p (or_introl eq_refl)) as (rel & ->).
    exists ((joinpath input_dir rel, joinpath output_dir rel) :: tasks).
    simpl. rewrite relative_to_joinpath, Hplan, Hfst.
    repeat split; auto. constructor; [now exists rel | assumption].
Qed.

(** C4: the planner succeeds on what the scanner found and makes one
    task per file found, in order, whose input is the file and whose
    output is the output root joined with the file's path relative to the
    input root. *)
Theorem plan_tasks_one_task_per_file : forall fs input_dir output_dir,
  exists tasks,
    plan_tasks input_dir output_dir (find_all_pdfs fs input_dir) = Ok tasks
    /\ map fst tasks = find_all_pdfs fs input_dir
    /\ Forall (fun task => exists rel,
                 fst task = joinpath input_dir rel
                 /\ snd task = joinpath output_dir rel) tasks.
Proof.
  intros fs input_dir output_dir. apply plan_tasks_mirrors.
  intros p Hp. eapply find_all_pdfs_below_root; eauto.
Qed.

(** ** External Tool Adapter *)

(** The file system raises [OSError]s only. *)
Lemma stat_Exception : forall p t e, stat t p = Raise e -> is_Exception e = true.
Proof.
  induction p as [|c p IH]; intros t e; simpl; [discriminate|].
  destruct t as [n | | es]; try (intros H; injection H as <-; reflexivity).
  destruct (assoc c es) as [child|]; [apply IH|].
  intros H; injection H as <-; reflexivity.
Qed.

Lemma getsize_fs_Exception : forall t p e,
  getsize_fs t p = Raise e -> is_Exception e = true.
Proof.
  intros t p e; unfold getsize_fs.
  destruct (stat t p) as [[n | | es] | x] eqn:H; try discriminate.
  intros E; injection E as <-. eapply stat_Exception; eauto.
Qed.

(** One run of the adapter, step by step: the directory is made outside
    the [try]; the two measurements and the invocation are inside it. *)
Lemma compress_pdf_run : forall programs inp out q w,
  compress_pdf programs inp out q w =
  let w0 := record (EvMkdir (parent out)) w in
  match mkdir_fs (fs w) (parent out) with
  | Raise e => (Raise e, w0)
  | Ok t1 =>
      let w1 := record (EvGetsize inp) (with_fs t1 w0) in
      match getsize_fs t1 inp with
      | Raise _ => (Ok (false, 0%Z, 0%Z, str_of_Path inp), w1)
      | Ok n =>
          let (c, t2) := programs (gs_command inp out q) t1 in
          let w2 := with_fs t2 (record (EvSpawn (gs_command inp out q) c) w1) in
          match c with
          | NoSuchProgram => (Ok (false, 0%Z, 0%Z, str_of_Path inp), w2)
          | Exited code _ _ =>
              if (code =? 0)%Z then
                match getsize_fs t2 out with
                | Ok m => (Ok (true, n, m, str_of_Path inp), record (EvGetsize out) w2)
                | Raise _ => (Ok (false, 0%Z, 0%Z, str_of_Path inp), record (EvGetsize out) w2)
                end
              else (Ok (false, 0%Z, 0%Z, str_of_Path inp), w2)
          end
      end
  end.
Proof.
  intros programs inp out q w.
  unfold compress_pdf, bind, try_except, mkdir, getsize, subprocess_run, ret.
  cbn -[gs_command str_of_Path parent].
  destruct (mkdir_fs (fs w) (parent out)) as [t1 | e]; [|reflexivity].
  cbn -[gs_command str_of_Path parent].
  destruct (getsize_fs t1 inp) as [n | e] eqn:Hin;
    [|now rewrite (getsize_fs_Exception _ _ _ Hin)].
  destruct (programs (gs_command inp out q) t1) as [c t2].
  destruct c as [| code o e]; [reflexivity|].
  destruct (code =? 0)%Z; [|reflexivity].
  cbn -[gs_command str_of_Path parent].
  destruct (getsize_fs t2 out) as [m | e'] eqn:Hout;
    [reflexivity | now rewrite (getsize_fs_Exception _ _ _ Hout)].
Qed.

(** The directory is made before the [try]: when making it raises, the
    adapter raises. *)
Lemma compress_pdf_mkdir_escapes : forall programs inp out q w e,
  mkdir_fs (fs w) (parent out) = Raise e ->
  fst (compress_pdf programs inp out q w) = Raise e.
Proof.
  intros programs inp out q w e H. now rewrite compress_pdf_run, H.
Qed.

(** Once the output directory is made, every failure is swallowed: an
    input that cannot be measured, a tool that is missing or exits
    non-zero, an output that cannot be measured all give the failed
    tuple, and nothing is raised. *)
Lemma compress_pdf_swallows_inside_try : forall programs inp out q w t1,
  mkdir_fs (fs w) (parent out) = Ok t1 ->
  (exists n m, fst (compress_pdf programs inp out q w) = Ok (true, n, m, str_of_Path inp))
  \/ fst (compress_pdf programs inp out q w) = Ok (false, 0%Z, 0%Z, str_of_Path inp).
Proof.
  intros programs inp out q w t1 H. rewrite compress_pdf_run, H. cbv zeta.
  destruct (getsize_fs t1 inp) as [n | e]; [|now right].
  destruct (programs (gs_command inp out q) t1) as [[| code o e] t2]; [now right|].
  destruct (code =? 0)%Z; [|now right].
  destruct (getsize_fs t2 out) as [m | e']; [left; now exists n, m | now right].
Qed.

Lemma compress_pdf_failed_tuple : forall programs inp out q w t1,
  mkdir_fs (fs w) (parent out) = Ok t1 ->
  (exists e, getsize_fs t1 inp = Raise e)
  \/ fst (programs (gs_command inp out q) t1) = NoSuchProgram
  \/ (exists code o e, fst (programs (gs_command inp out q) t1) = Exited code o e
                       /\ code <> 0%Z)
  \/ (exists e, getsize_fs (snd (programs (gs_command inp out q) t1)) out = Raise e) ->
  fst (compress_pdf programs inp out q w) = Ok (false, 0%Z, 0%Z, str_of_Path inp).
Proof.
  intros programs inp out q w t1 H Hfail. rewrite compress_pdf_run, H. cbv zeta.
  destruct (getsize_fs t1 inp) as [n | e]; [|reflexivity].
  destruct (programs (gs_command inp out q) t1) as [[| code o e] t2];
    [reflexivity|]. simpl in Hfail.
  destruct (Z.eqb_spec code 0) as [-> | Hne]; [|reflexivity].
  destruct (getsize_fs t2 out) as [m | e']; [|reflexivity].
  destruct Hfail as [(x & Hx) | [Hx | [(c & o' & e' & Hx & Hc) | (x & Hx)]]];
    try discriminate.
  injection Hx as <- _ _. contradiction.
Qed.

Ltac pin_events Htrace :=
  simpl in Htrace; rewrite <- ?app_assoc in Htrace;
  apply app_inv_head in Htrace; simpl in Htrace; subst.

Ltac spawn_in Hin :=
  simpl in Hin;
  repeat match type of Hin with _ \/ _ => destruct Hin as [Hin | Hin] end;
  try discriminate Hin; try contradiction.

(** C5: when the run of a task shows the tool invoked and exiting with
    status zero, and the output can be measured afterwards ([m] bytes),
    the adapter returns [(True, n, m, path)]: [n] is the size the input
    had in the file system the tool was started in, [m] the size of the
    output in the file system the tool left. *)
Theorem compress_pdf_reports_sizes :
  forall programs inp out q w r w' evs o e m,
    compress_pdf programs inp out q w = (r, w') ->
    trace w' = trace w ++ evs ->
    In (EvSpawn (gs_command inp out q) (Exited 0 o e)) evs ->
    getsize_fs (fs w') out = Ok m ->
    exists t1 n,
      mkdir_fs (fs w) (parent out) = Ok t1
      /\ getsize_fs t1 inp = Ok n
      /\ programs (gs_command inp out q) t1 = (Exited 0 o e, fs w')
      /\ r = Ok (true, n, m, str_of_Path inp).
Proof.
  intros programs inp out q w r w' evs o e m Hrun Htrace Hin Hm.
  rewrite compress_pdf_run in Hrun. cbv zeta in Hrun.
  destruct (mkdir_fs (fs w) (parent out)) as [t1 | x] eqn:Hdir;
    [|injection Hrun as <- <-; pin_events Htrace; spawn_in Hin].
  destruct (getsize_fs t1 inp) as [n | x] eqn:Hsize;
    [|injection Hrun as <- <-; pin_events Htrace; spawn_in Hin].
  destruct (programs (gs_command inp out q) t1) as [c t2] eqn:Hprog.
  destruct c as [| code o' e'];
    [injection Hrun as <- <-; pin_events Htrace; spawn_in Hin|].
  destruct (Z.eqb_spec code 0) as [-> | Hne].
  - destruct (getsize_fs t2 out) as [m' | x] eqn:Hout;
      injection Hrun as <- <-; pin_events Htrace; spawn_in Hin;
      injection Hin as <- <-; simpl in Hm; rewrite Hout in Hm;
      [|discriminate Hm].
    injection Hm as <-. exists t1, n. repeat split; assumption.
  - injection Hrun as <- <-; pin_events Htrace; spawn_in Hin.
    injection Hin as E _ _. contradiction.
Qed.

Lemma compress_pdf_reports_sizes_witness :
  exists t1 n,
    mkdir_fs Scenario.tree ["out"; "a"] = Ok t1
    /\ getsize_fs t1 ["in"; "a"; "1.pdf"] = Ok n
    /\ Scenario.gs (gs_command ["in"; "a"; "1.pdf"] ["out"; "a"; "1.pdf"] "/ebook") t1
       = (Exited 0 "" "",
          fs (snd (compress_pdf Scenario.gs ["in"; "a"; "1.pdf"]
                     ["out"; "a"; "1.pdf"] "/ebook" Scenario.world)))
    /\ fst (compress_pdf Scenario.gs ["in"; "a"; "1.pdf"] ["out"; "a"; "1.pdf"]
              "/ebook" Scenario.world)
       = Ok (true, n, 500%Z, "in/a/1.pdf").
Proof.
  apply (compress_pdf_reports_sizes Scenario.gs
           ["in"; "a"; "1.pdf"] ["out"; "a"; "1.pdf"] "/ebook" Scenario.world
           _ _ [EvMkdir ["out"; "a"]; EvGetsize ["in"; "a"; "1.pdf"];
                EvSpawn (gs_command ["in"; "a"; "1.pdf"] ["out"; "a"; "1.pdf"] "/ebook")
                  (Exited 0 "" "");
                EvGetsize ["out"; "a"; "1.pdf"]] "" "" 500%Z).
  - reflexivity.
  - reflexivity.
  - simpl; auto.
  - reflexivity.
Defined.

(** ** Worker Pool *)

Lemma remove_nth_permutation : forall (A : Type) (l : list A) k d,
  (k < List.length l)%nat -> Permutation (nth k l d :: remove_nth k l) l.
Proof.
  intros A l; induction l as [|x l IH]; intros k d Hk; simpl in Hk; [lia|].
  destruct k as [|k]; simpl; [reflexivity|].
  etransitivity; [apply perm_swap|]. constructor. apply IH. lia.
Qed.

Lemma remove_nth_length : forall (A : Type) (l : list A) k,
  (k < List.length l)%nat -> S (List.length (remove_nth k l)) = List.length l.
Proof.
  intros A l; induction l as [|x l IH]; intros k Hk; simpl in Hk; [lia|].
  destruct k as [|k]; simpl; [reflexivity|]. rewrite IH; [reflexivity | lia].
Qed.

Lemma completion_order_permutation : forall (A : Type) n choices (l : list A),
  List.length l = n -> Permutation (completion_order choices l n) l.
Proof.
  intros A n; induction n as [|n IH]; intros choices l Hl.
  - destruct l; [constructor | discriminate].
  - destruct l as [|d l]; [discriminate|].
    cbn [completion_order].
    set (k := (hd O choices mod List.length (d :: l))%nat).
    assert (Hk : (k < List.length (d :: l))%nat)
      by (apply Nat.mod_upper_bound; discriminate).
    etransitivity; [|apply (remove_nth_permutation _ (d :: l) k d Hk)].
    constructor. apply IH.
    pose proof (remove_nth_length _ (d :: l) k Hk) as E. lia.
Qed.

(** The futures come out of [as_completed] each exactly once, whatever
    the scheduler chooses. *)
Lemma as_completed_permutation : forall (A : Type) choices (l : list A),
  Permutation (as_completed choices l) l.
Proof. intros; now apply completion_order_permutation. Qed.

Lemma as_completed_length : forall (A : Type) choices (l : list A),
  List.length (as_completed choices l) = List.length l.
Proof. intros; apply Permutation_length, as_completed_permutation. Qed.

Lemma as_completed_pair : forall (A : Type) choices (a b : A),
  as_completed choices [a; b] = [a; b] \/ as_completed choices [a; b] = [b; a].
Proof.
  intros A choices a b.
  pose proof (as_completed_permutation A choices [a; b]) as H.
  apply Permutation_sym, Permutation_length_2_inv in H. tauto.
Qed.

(** A run of the adapter reads the file system only, and leaves the
    terminal and the statistics alone. *)
Lemma compress_pdf_frame : forall programs inp out q t0,
  exists r t evs,
    forall w, fs w = t0 -> compress_pdf programs inp out q w = (r, extend t evs w).
Proof.
  intros programs inp out q t0.
  destruct (mkdir_fs t0 (parent out)) as [t1 | x] eqn:Hdir.
  2:{ exists (Raise x), t0, [EvMkdir (parent out)]. intros w <-.
      rewrite compress_pdf_run, Hdir. reflexivity. }
  destruct (getsize_fs t1 inp) as [n | x] eqn:Hsize.
  2:{ eexists _, t1, [_; _]. intros w <-.
      rewrite compress_pdf_run, Hdir. cbv zeta. rewrite Hsize.
      unfold extend, record, with_fs; simpl. rewrite <- app_assoc. reflexivity. }
  destruct (programs (gs_command inp out q) t1) as [c t2] eqn:Hprog.
  destruct c as [| code o e].
  { eexists _, t2, [_; _; _]. intros w <-.
    rewrite compress_pdf_run, Hdir. cbv zeta. rewrite Hsize, Hprog.
    unfold extend, record, with_fs; simpl. rewrite <- !app_assoc. reflexivity. }
  destruct (code =? 0)%Z eqn:Hcode.
  2:{ eexists _, t2, [_; _; _]. intros w <-.
      rewrite compress_pdf_run, Hdir. cbv zeta. rewrite Hsize, Hprog, Hcode.
      unfold extend, record, with_fs; simpl. rewrite <- !app_assoc. reflexivity. }
  destruct (getsize_fs t2 out) as [m | x] eqn:Hout;
    (eexists _, t2, [_; _; _; _]; intros w <-;
     rewrite compress_pdf_run, Hdir; cbv zeta; rewrite Hsize, Hprog, Hcode, Hout;
     unfold extend, record, with_fs; simpl; rewrite <- !app_assoc; reflexivity).
Qed.

(** The pool returns one future per task and never raises. *)
Lemma run_pool_frame : forall programs q tasks t0,
  exists futures t evs,
    List.length futures = List.length tasks
    /\ forall w, fs w = t0 ->
         run_pool programs tasks q w = (Ok futures, extend t evs w).
Proof.
  intros programs q; induction tasks as [|[inp out] tasks IH]; intros t0.
  - exists [], t0, []. split; [reflexivity|]. intros w <-.
    unfold extend; simpl. rewrite app_nil_r. now destruct w.
  - destruct (compress_pdf_frame programs inp out q t0) as (r & t1 & evs1 & H1).
    destruct (IH t1) as (futures & t2 & evs2 & Hlen & H2).
    exists (r :: futures), t2, (evs1 ++ evs2). split; [simpl; now rewrite Hlen|].
    intros w Hw. cbn [run_pool]. rewrite (H1 w Hw).
    unfold bind. rewrite (H2 (extend t1 evs1 w) eq_refl).
    unfold ret, extend; simpl. now rewrite app_assoc.
Qed.

(** ** Progress and Stats Reporter *)

Lemma for_each_cons : forall (A : Type) (x : A) xs body w,
  for_each (x :: xs) body w =
  match body x w with
  | (Ok _, w') => for_each xs body w'
  | (Raise e, w') => (Raise e, w')
  end.
Proof. reflexivity. Qed.

Lemma aggregate_one_run : forall future w,
  aggregate_one future w =
  match future with
  | Raise e => (Raise e, w)
  | Ok (true, orig, comp, _) => (Ok tt, with_stats (count_success orig comp (stats w)) w)
  | Ok (false, _, _, path) => (Ok tt, with_stats (count_failure path (stats w)) w)
  end.
Proof.
  intros [[[[[|] orig] comp] path] | e] w; reflexivity.
Qed.

(** The aggregation loop writes the statistics and nothing else. *)
Lemma aggregate_only_stats : forall futures w,
  snd (for_each futures aggregate_one w)
  = with_stats (stats (snd (for_each futures aggregate_one w))) w.
Proof.
  induction futures as [|f futures IH]; intros w.
  - now destruct w.
  - rewrite for_each_cons, aggregate_one_run.
    destruct f as [[[[[|] orig] comp] path] | e]; try (now destruct w);
      rewrite IH at 1; reflexivity.
Qed.

(** Each future aggregated adds one to exactly one of the two counters
    and leaves the total alone. *)
Lemma aggregate_counts : forall futures w w',
  for_each futures aggregate_one w = (Ok tt, w') ->
  total (stats w') = total (stats w)
  /\ (success (stats w') + failed (stats w')
      = success (stats w) + failed (stats w) + Z.of_nat (List.length futures))%Z.
Proof.
  induction futures as [|f futures IH]; intros w w' H.
  - injection H as <-. simpl. lia.
  - rewrite for_each_cons, aggregate_one_run in H.
    destruct f as [[[[[|] orig] comp] path] | e]; try discriminate H;
      apply IH in H as [Ht Hc]; rewrite Ht; split; try reflexivity;
      rewrite Hc; cbn [stats with_stats count_success count_failure success failed];
      cbn [List.length]; lia.
Qed.

(** Two aggregations of the same futures, one started on top of earlier
    statistics: they end alike, the one still on top of the other. *)
Lemma aggregate_on_top : forall futures before w0 w1,
  Spec.on_top_of before (stats w0) (stats w1) ->
  fst (for_each futures aggregate_one w1) = fst (for_each futures aggregate_one w0)
  /\ Spec.on_top_of before
       (stats (snd (for_each futures aggregate_one w0)))
       (stats (snd (for_each futures aggregate_one w1))).
Proof.
  induction futures as [|f futures IH]; intros before w0 w1 H.
  - split; [reflexivity | exact H].
  - rewrite !for_each_cons, !aggregate_one_run.
    destruct f as [[[[[|] orig] comp] path] | e]; [| |split; [reflexivity | exact H]];
      apply IH; destruct H as (Ht & Hs & Hf & He & Ho & Hc);
      unfold Spec.on_top_of; simpl; rewrite ?Ht, ?Hs, ?Hf, ?He, ?Ho, ?Hc;
      repeat split; try lia; now rewrite app_assoc.
Qed.

Lemma for_each_print : forall (A : Type) (f : A -> line) xs w,
  for_each xs (fun x => print (f x)) w = (Ok tt, emit_all (map f xs) w).
Proof.
  intros A f; induction xs as [|x xs IH]; intros w.
  - unfold emit_all; simpl. rewrite app_nil_r. now destruct w.
  - rewrite for_each_cons. unfold print at 1. rewrite IH.
    unfold emit_all, emit; simpl. now rewrite <- app_assoc.
Qed.

Lemma truediv_MB : forall a, truediv a MB = Ok (Qred (inject_Z a / inject_Z MB)).
Proof. reflexivity. Qed.

Lemma bind_print : forall (B : Type) l (k : unit -> M B) w,
  bind (print l) k w = k tt (emit l w).
Proof. reflexivity. Qed.

Lemma bind_get_stats : forall (B : Type) (k : Stats -> M B) w,
  bind get_stats k w = k (stats w) w.
Proof. reflexivity. Qed.

Lemma bind_ret : forall (A B : Type) (a : A) (k : A -> M B) w,
  bind (ret a) k w = k a w.
Proof. reflexivity. Qed.

Lemma bind_lift_Ok : forall (A B : Type) (a : A) (k : A -> M B) w,
  bind (lift (Ok a)) k w = k a w.
Proof. reflexivity. Qed.

Lemma bind_eq : forall (A B : Type) (m : M A) (k : A -> M B) w a w',
  m w = (Ok a, w') -> bind m k w = k a w'.
Proof. intros A B m k w a w' H; unfold bind; now rewrite H. Qed.

Lemma bind_bind : forall (A B C : Type) (m : M A) (k : A -> M B) (h : B -> M C) w,
  bind (bind m k) h w = bind m (fun a => bind (k a) h) w.
Proof.
  intros A B C m k h w; unfold bind. destruct (m w) as [[a | e] w']; reflexivity.
Qed.

Lemma bind_for_each_print :
  forall (A B : Type) (f : A -> line) xs (k : unit -> M B) w,
    bind (for_each xs (fun x => print (f x))) k w = k tt (emit_all (map f xs) w).
Proof. intros; unfold bind; now rewrite for_each_print. Qed.

Ltac step_summary :=
  repeat first
    [ rewrite bind_print | rewrite bind_get_stats | rewrite bind_ret
    | rewrite bind_lift_Ok | rewrite bind_bind | rewrite truediv_MB
    | rewrite bind_for_each_print | rewrite for_each_print ];
  cbn [stats emit emit_all].

Lemma emit_one : forall l w, emit l w = emit_all [l] w.
Proof. reflexivity. Qed.

Lemma emit_all_emit : forall l ls w, emit l (emit_all ls w) = emit_all (ls ++ [l]) w.
Proof. intros; unfold emit, emit_all; simpl. now rewrite <- app_assoc. Qed.

Lemma emit_all_emit_all : forall ls1 ls2 w,
  emit_all ls2 (emit_all ls1 w) = emit_all (ls1 ++ ls2) w.
Proof. intros; unfold emit_all; simpl. now rewrite <- app_assoc. Qed.

(** Nested [emit]s are merged from the inside; unfolding them would copy
    the world once per field at every level. *)
Ltac merge_lines w :=
  unfold print; rewrite (emit_one Rule w);
  repeat first [rewrite emit_all_emit | rewrite emit_all_emit_all];
  do 2 f_equal; cbn [app]; rewrite <- ?app_assoc; reflexivity.

(** The summary never raises, whatever the statistics: its divisions are
    by a constant or guarded by the test on [Stats.original_size]. *)
Lemma print_summary_eq : forall w,
  print_summary w = (Ok tt, emit_all (summary_lines (stats w)) w).
Proof.
  intros w. unfold print_summary, summary_lines, size_lines, error_lines.
  step_summary.
  destruct (0 <? total (stats w))%Z;
    [destruct (original_size (stats w) =? 0)%Z eqn:Hz;
       [|unfold truediv at 1; rewrite Hz]|];
    destruct (0 <? failed (stats w))%Z;
    step_summary; merge_lines w.
Qed.

(** ** The batch *)

Lemma bind_scan : forall (B : Type) root_dir (k : list Path -> M B) w,
  bind (scan root_dir) k w
  = k (find_all_pdfs (fs w) root_dir) (record (EvWalk root_dir) w).
Proof. reflexivity. Qed.

Lemma bind_set_stats : forall (B : Type) s (k : unit -> M B) w,
  bind (set_stats s) k w = k tt (with_stats s w).
Proof. reflexivity. Qed.

(** A batch, in two halves: everything up to the pool depends on the
    file system alone and yields one future per file found; the futures
    are then aggregated and the summary printed. *)
Lemma process_all_run : forall programs choices input_dir output_dir quality t0,
  exists futures t evs,
    List.length futures = List.length (find_all_pdfs t0 input_dir)
    /\ forall w, fs w = t0 ->
         process_all programs choices input_dir output_dir quality w
         = (for_each futures aggregate_one ;; print_summary)
             (extend t (EvWalk input_dir :: evs)
                (emit (Found (Z.of_nat (List.length (find_all_pdfs t0 input_dir))))
                   (with_stats
                      (set_total (Z.of_nat (List.length (find_all_pdfs t0 input_dir)))
                         (stats w)) w))).
Proof.
  intros programs choices input_dir output_dir quality t0.
  destruct (plan_tasks_mirrors input_dir output_dir (find_all_pdfs t0 input_dir))
    as (tasks & Hplan & Hfst & _).
  { intros p Hp; eapply find_all_pdfs_below_root; eauto. }
  destruct (run_pool_frame programs quality tasks t0)
    as (futures & t & evs & Hlen & Hpool).
  exists (as_completed choices futures), t, evs. split.
  - rewrite as_completed_length, Hlen, <- Hfst. now rewrite length_map.
  - intros w <-. unfold process_all.
    rewrite bind_scan, bind_get_stats, bind_set_stats, bind_print, Hplan, bind_lift_Ok.
    unfold bind at 1. rewrite Hpool by reflexivity.
    f_equal. unfold extend, emit, with_stats, record; simpl.
    now rewrite <- app_assoc.
Qed.

Lemma bind_print_summary : forall (m : M unit) w,
  fst (bind m (fun _ => print_summary) w) = fst (m w)
  /\ stats (snd (bind m (fun _ => print_summary) w)) = stats (snd (m w)).
Proof.
  intros m w; unfold bind. destruct (m w) as [[[] | e] w']; simpl; [|auto].
  rewrite print_summary_eq. auto.
Qed.

(** C2: a batch that starts from the statistics of a fresh process and
    runs to its end leaves [success + failed = total], and [total] is the
    number of files the scanner found. *)
Theorem process_all_counts_add_up :
  forall programs choices input_dir output_dir quality w w',
    stats w = Stats_init ->
    process_all programs choices input_dir output_dir quality w = (Ok tt, w') ->
    (success (stats w') + failed (stats w') = total (stats w'))%Z
    /\ total (stats w') = Z.of_nat (List.length (find_all_pdfs (fs w) input_dir)).
Proof.
  intros programs choices input_dir output_dir quality w w' Hinit Hrun.
  destruct (process_all_run programs choices input_dir output_dir quality (fs w))
    as (futures & t & evs & Hlen & H).
  rewrite (H w eq_refl) in Hrun.
  match type of Hrun with
  | bind ?m _ ?w1 = _ =>
      destruct (bind_print_summary m w1) as [Hfst Hstats];
      rewrite Hrun in Hfst, Hstats; simpl in Hfst, Hstats;
      destruct (m w1) as [r w2] eqn:Hagg
  end.
  simpl in Hfst; subst r. apply aggregate_counts in Hagg as [Ht Hc].
  simpl in Hstats, Ht, Hc. rewrite Hinit in Hc. simpl in Hc.
  rewrite Hstats, Ht. split; [lia | reflexivity].
Qed.

Lemma process_all_counts_add_up_witness :
  (success (stats (snd (process_all Scenario.gs [] ["in"] ["out"] "/ebook" Scenario.world)))
   + failed (stats (snd (process_all Scenario.gs [] ["in"] ["out"] "/ebook" Scenario.world)))
   = total (stats (snd (process_all Scenario.gs [] ["in"] ["out"] "/ebook" Scenario.world))))%Z
  /\ total (stats (snd (process_all Scenario.gs [] ["in"] ["out"] "/ebook" Scenario.world)))
     = Z.of_nat (List.length (find_all_pdfs (fs Scenario.world) ["in"])).
Proof.
  apply (process_all_counts_add_up Scenario.gs [] ["in"] ["out"] "/ebook"
           Scenario.world).
  - reflexivity.
  - vm_compute. reflexivity.
Defined.

(** C10: nothing but [Stats.total] is reset.  The statistics a batch
    leaves are what the same batch leaves in a fresh process, put on top
    of the statistics it started from: the counters and the sums add up,
    the failure list is appended to, and only the total is the batch's
    own.  Both runs end the same way. *)
Theorem process_all_accumulates :
  forall programs choices input_dir output_dir quality w,
    Spec.on_top_of (stats w)
      (stats (snd (process_all programs choices input_dir output_dir quality
                     (with_stats Stats_init w))))
      (stats (snd (process_all programs choices input_dir output_dir quality w)))
    /\ fst (process_all programs choices input_dir output_dir quality w)
       = fst (process_all programs choices input_dir output_dir quality
                (with_stats Stats_init w)).
Proof.
  intros programs choices input_dir output_dir quality w.
  destruct (process_all_run programs choices input_dir output_dir quality (fs w))
    as (futures & t & evs & Hlen & H).
  rewrite (H w eq_refl), (H (with_stats Stats_init w) eq_refl).
  match goal with
  | |- Spec.on_top_of _ (stats (snd (bind ?m _ ?w0))) (stats (snd (bind _ _ ?w1))) /\ _ =>
      destruct (bind_print_summary m w0) as [-> ->];
      destruct (bind_print_summary m w1) as [-> ->];
      destruct (aggregate_on_top futures (stats w) w0 w1) as [Hfst Hstats]
  end.
  - unfold Spec.on_top_of; simpl. rewrite app_nil_r. repeat split; lia.
  - split; assumption.
Qed.

Lemma find_all_pdfs_empty_root : forall t root_dir,
  stat t root_dir = Ok (Dir []) -> find_all_pdfs t root_dir = [].
Proof. intros t root_dir H; unfold find_all_pdfs, os_walk; now rewrite H. Qed.

(** C7: the summary never raises, so it never divides by zero, whatever
    the statistics; with a positive total and no byte counted it reports
    a ratio of 0; and for an empty input root, in a fresh process, the
    batch ends normally with a total of 0 and prints neither sizes nor a
    failure list. *)
Theorem print_summary_never_divides_by_zero :
  forall programs choices input_dir output_dir quality w,
    fst (print_summary w) = Ok tt
    /\ (original_size (stats w) = 0%Z -> (0 < total (stats w))%Z ->
        exists mb, In (Saved mb 0) (stdout (snd (print_summary w))))
    /\ (stat (fs w) input_dir = Ok (Dir []) -> stats w = Stats_init ->
        fst (process_all programs choices input_dir output_dir quality w) = Ok tt
        /\ total (stats (snd (process_all programs choices input_dir output_dir
                                quality w))) = 0%Z
        /\ stdout (snd (process_all programs choices input_dir output_dir quality w))
           = stdout w ++ [Found 0; Rule; SummaryTitle; Processed 0; Succeeded 0;
                          WithErrors 0; Rule]).
Proof.
  intros programs choices input_dir output_dir quality w.
  rewrite print_summary_eq. split; [reflexivity|]. split.
  - intros Hzero Hpos. apply Z.ltb_lt in Hpos.
    unfold emit_all, summary_lines, size_lines; cbn [snd stdout].
    rewrite Hpos, Hzero. cbn [Z.eqb].
    eexists. apply in_or_app; right. cbn. do 7 right. left. reflexivity.
  - intros Hroot Hinit.
    destruct (process_all_run programs choices input_dir output_dir quality (fs w))
      as (futures & t & evs & Hlen & H).
    rewrite (H w eq_refl).
    rewrite (find_all_pdfs_empty_root _ _ Hroot) in *.
    destruct futures; [|discriminate Hlen].
    cbn [for_each]. rewrite bind_ret, print_summary_eq.
    cbn [fst snd stats stdout extend emit emit_all with_stats].
    rewrite Hinit. cbn. rewrite <- app_assoc. auto.
Qed.

Lemma print_summary_never_divides_by_zero_witness :
  (exists mb, In (Saved mb 0) (stdout (snd (print_summary Scenario.one_failure))))
  /\ fst (process_all Scenario.gs [] ["in"] ["out"] "/ebook" Scenario.empty_world) = Ok tt
  /\ total (stats (snd (process_all Scenario.gs [] ["in"] ["out"] "/ebook"
                          Scenario.empty_world))) = 0%Z
  /\ stdout (snd (process_all Scenario.gs [] ["in"] ["out"] "/ebook"
                    Scenario.empty_world))
     = stdout Scenario.empty_world
       ++ [Found 0; Rule; SummaryTitle; Processed 0; Succeeded 0; WithErrors 0; Rule].
Proof.
  split.
  - apply (print_summary_never_divides_by_zero Scenario.gs [] ["in"] ["out"] "/ebook"
             Scenario.one_failure); [reflexivity | reflexivity].
  - apply (print_summary_never_divides_by_zero Scenario.gs [] ["in"] ["out"] "/ebook"
             Scenario.empty_world); reflexivity.
Defined.

(** ** The two-file batch *)

Ltac run_batch choices :=
  unfold process_all;
  rewrite bind_scan, bind_get_stats, bind_set_stats, bind_print;
  match goal with
  | |- context [plan_tasks ?i ?o ?files] =>
      let tasks := eval vm_compute in (plan_tasks i o files) in
      change (plan_tasks i o files) with tasks
  end;
  rewrite bind_lift_Ok;
  match goal with
  | |- context [bind (run_pool ?p ?t ?q) ?k ?w] =>
      let r := eval vm_compute in (run_pool p t q w) in
      match r with
      | (Ok ?a, ?w') =>
          rewrite (bind_eq _ _ (run_pool p t q) k w a w') by (vm_compute; reflexivity)
      end
  end;
  match goal with
  | |- context [as_completed choices [?a; ?b]] =>
      destruct (as_completed_pair _ choices a b) as [E | E]; rewrite E
  end.

(** C6: whatever the order in which the two workers finish and whatever
    the profile, the batch ends normally with total 2, one success, one
    failure, 1000 bytes before and 500 after, [in/b/2.pdf] alone in the
    failure list, and a summary that reports 500 bytes saved, 50 percent.
    The failed task adds nothing to either sum. *)
Theorem two_file_batch_statistics : forall choices quality,
  fst (process_all Scenario.gs choices ["in"] ["out"] quality Scenario.world) = Ok tt
  /\ stats (snd (process_all Scenario.gs choices ["in"] ["out"] quality Scenario.world))
     = {| total := 2; success := 1; failed := 1; errors := ["in/b/2.pdf"];
          original_size := 1000; compressed_size := 500 |}
  /\ stdout (snd (process_all Scenario.gs choices ["in"] ["out"] quality Scenario.world))
     = [Found 2; Rule; SummaryTitle; Processed 2; Succeeded 1; WithErrors 1;
        SizeBefore (Qred (inject_Z 1000 / inject_Z MB));
        SizeAfter (Qred (inject_Z 500 / inject_Z MB));
        Saved (Qred (inject_Z 500 / inject_Z MB)) 50;
        ErrorsTitle; ErrorItem "in/b/2.pdf"; Rule].
Proof.
  intros choices quality.
  run_batch choices; vm_compute; repeat split; reflexivity.
Qed.

(** C1, where the code departs from it: with [out/a] a regular file, the
    adapter raises [FileExistsError] for [a/1.pdf] instead of returning
    the failed tuple; [future.result()] raises it again in [process_all],
    and the batch ends with it in either completion order, nothing
    printed after the count of files found. *)
Theorem blocked_output_aborts_batch : forall choices quality,
  fst (compress_pdf Scenario.gs ["in"; "a"; "1.pdf"] ["out"; "a"; "1.pdf"] quality
         Blocked.world) = Raise FileExistsError
  /\ fst (process_all Scenario.gs choices ["in"] ["out"] quality Blocked.world)
     = Raise FileExistsError
  /\ stdout (snd (process_all Scenario.gs choices ["in"] ["out"] quality Blocked.world))
     = [Found 2].
Proof.
  intros choices quality. split; [reflexivity|].
  run_batch choices; vm_compute; split; reflexivity.
Qed.

(** ** Start-up *)

Lemma grows_ret : forall (A : Type) (a : A), grows (ret a).
Proof. intros A a w; exists []; simpl; now rewrite app_nil_r. Qed.

Lemma grows_raise : forall (A : Type) e, grows (@raise A e).
Proof. intros A e w; exists []; simpl; now rewrite app_nil_r. Qed.

Lemma grows_print : forall l, grows (print l).
Proof. intros l w; exists []; simpl; now rewrite app_nil_r. Qed.

Lemma grows_input : forall p, grows (input p).
Proof.
  intros p w; exists []; unfold input; simpl.
  destruct (stdin w); simpl; now rewrite app_nil_r.
Qed.

Lemma grows_bind : forall (A B : Type) (m : M A) (k : A -> M B),
  grows m -> (forall a, grows (k a)) -> grows (bind m k).
Proof.
  intros A B m k Hm Hk w; unfold bind.
  destruct (Hm w) as (evs & Hevs). destruct (m w) as [[a | e] w1]; simpl in Hevs.
  - destruct (Hk a w1) as (evs' & Hevs'). exists (evs ++ evs').
    now rewrite Hevs', Hevs, app_assoc.
  - now exists evs.
Qed.

Create HintDb grows discriminated.
#[local] Hint Resolve grows_ret grows_raise grows_print grows_input : grows.
#[local] Hint Extern 2 (grows (bind _ _)) => apply grows_bind; [|intro] : grows.

Lemma grows_prompt_directory_loop : forall p lines,
  grows (prompt_directory_loop p lines).
Proof.
  intros p; induction lines as [|l lines IH]; cbn [prompt_directory_loop].
  - auto with grows.
  - apply grows_bind; [auto with grows|]. intros l' w.
    destruct (isdir_fs (fs w) _).
    + exists []; simpl; now rewrite app_nil_r.
    + apply grows_bind; auto with grows.
Qed.

Lemma grows_prompt_directory : forall p, grows (prompt_directory p).
Proof. intros p w; apply grows_prompt_directory_loop. Qed.

Lemma grows_prompt_quality : grows prompt_quality.
Proof. unfold prompt_quality; auto 20 with grows. Qed.

Lemma grows_process_all : forall programs choices input_dir output_dir quality,
  grows (process_all programs choices input_dir output_dir quality).
Proof.
  intros programs choices input_dir output_dir quality w.
  destruct (process_all_run programs choices input_dir output_dir quality (fs w))
    as (futures & t & evs & _ & H).
  rewrite (H w eq_refl). exists (EvWalk input_dir :: evs).
  unfold bind.
  match goal with
  | |- context [for_each futures aggregate_one ?w1] =>
      pose proof (aggregate_only_stats futures w1) as Hagg;
      destruct (for_each futures aggregate_one w1) as [[[] | e] w2]
  end; simpl in Hagg; rewrite Hagg; [rewrite print_summary_eq|]; reflexivity.
Qed.

(** The probe, case by case. *)
Lemma check_ghostscript_run : forall programs w,
  check_ghostscript programs w =
  let w1 := with_fs (snd (programs version_probe (fs w)))
              (record (EvSpawn version_probe (fst (programs version_probe (fs w)))) w) in
  match fst (programs version_probe (fs w)) with
  | NoSuchProgram => (Raise (SystemExit 1), emit GsMissing w1)
  | Exited code out err =>
      if (code =? 0)%Z then (Ok tt, emit (GsFound (Str.strip out)) w1)
      else (Raise (SystemExit 1), emit (GsFailed (Str.strip err)) w1)
  end.
Proof.
  intros programs w. unfold check_ghostscript, subprocess_run.
  destruct (programs version_probe (fs w)) as [[| code out err] t]; cbn [fst snd].
  - reflexivity.
  - destruct (code =? 0)%Z; reflexivity.
Qed.

(** C9: the first thing the program asks of the system is the version
    probe, and everything else it asks comes after it; when the probe
    fails, the tool missing or returning non-zero, the program exits
    with status 1 having asked nothing else: no directory was walked, no
    file measured or compressed, no line read, no statistic touched. *)
Theorem main_probes_before_batch : forall programs choices w,
  (exists rest,
     trace (snd (main programs choices w))
     = trace w ++ EvSpawn version_probe (fst (programs version_probe (fs w))) :: rest)
  /\ (Spec.probe_failed (fst (programs version_probe (fs w))) ->
      fst (main programs choices w) = Raise (SystemExit 1)
      /\ trace (snd (main programs choices w))
         = trace w ++ [EvSpawn version_probe (fst (programs version_probe (fs w)))]
      /\ fs (snd (main programs choices w)) = snd (programs version_probe (fs w))
      /\ stdin (snd (main programs choices w)) = stdin w
      /\ stats (snd (main programs choices w)) = stats w).
Proof.
  intros programs choices w. unfold main. rewrite bind_print.
  match goal with
  | |- context [bind (check_ghostscript programs) (fun _ => ?k) (emit Banner w)] =>
      assert (Hg : grows k);
      [|set (rest := k) in *;
        assert (E : bind (check_ghostscript programs) (fun _ => rest) (emit Banner w)
                    = match check_ghostscript programs (emit Banner w) with
                      | (Ok _, w1) => rest w1
                      | (Raise e, w1) => (Raise e, w1)
                      end) by reflexivity;
        rewrite E, check_ghostscript_run; clear E]
  end.
  { apply grows_bind; [apply grows_prompt_directory | intros input_root].
    apply grows_bind; [apply grows_prompt_directory | intros output_root].
    apply grows_bind; [apply grows_prompt_quality | intros quality].
    apply grows_bind; [apply grows_process_all | intros _].
    auto with grows. }
  cbv zeta. change (fs (emit Banner w)) with (fs w).
  destruct (fst (programs version_probe (fs w))) as [| code out err] eqn:Hc.
  - split; [exists []; reflexivity | intros _; repeat split].
  - destruct (Z.eqb_spec code 0) as [-> | Hne].
    + split; [|intros Hfail; now contradiction Hfail].
      match goal with
      | |- context [rest ?w1] => destruct (Hg w1) as (evs & Hevs)
      end.
      exists evs. rewrite Hevs. simpl. now rewrite <- app_assoc.
    + split; [exists []; reflexivity | intros _; repeat split].
Qed.

Lemma main_probes_before_batch_witness :
  fst (main Scenario.no_gs [] Scenario.world) = Raise (SystemExit 1)
  /\ trace (snd (main Scenario.no_gs [] Scenario.world))
     = trace Scenario.world ++ [EvSpawn version_probe NoSuchProgram]
  /\ fs (snd (main Scenario.no_gs [] Scenario.world)) = Scenario.tree
  /\ stdin (snd (main Scenario.no_gs [] Scenario.world)) = stdin Scenario.world
  /\ stats (snd (main Scenario.no_gs [] Scenario.world)) = stats Scenario.world.
Proof.
  apply (main_probes_before_batch Scenario.no_gs [] Scenario.world).
  simpl. exact I.
Defined.

(** The batch of two files run twice in one process: the second run
    starts from the first run's statistics, so every count but the total
    is doubled and the counts no longer add up to the total. *)
Example second_batch_starts_from_first :
  stats (snd (process_all Scenario.gs [] ["in"] ["out"] "/ebook"
                (snd (process_all Scenario.gs [] ["in"] ["out"] "/ebook"
                        Scenario.world))))
  = {| total := 2; success := 2; failed := 2;
       errors := ["in/b/2.pdf"; "in/b/2.pdf"];
       original_size := 2000; compressed_size := 1000 |}.
Proof. vm_compute. reflexivity. Qed.

(** * Further properties *)

(** ** The directory prompt *)

Lemma isdir_fs_true : forall t s,
  isdir_fs t s = true -> exists es, stat t (Path_of_str s) = Ok (Dir es).
Proof.
  intros t s; unfold isdir_fs. destruct (String.eqb s ""); [discriminate|].
  destruct (stat t (Path_of_str s)) as [[n | | es] | e]; try discriminate.
  intros _; now exists es.
Qed.

(** One turn of the loop on a line that is there. *)
Lemma prompt_directory_turn : forall p l rest w,
  stdin w = l :: rest ->
  prompt_directory p w =
  if isdir_fs (fs w) (typed_path l)
  then (Ok (Path_of_str (typed_path l)), with_stdin rest (emit (Asked p) w))
  else prompt_directory p
         (emit (DirNotFound (typed_path l)) (with_stdin rest (emit (Asked p) w))).
Proof.
  intros p l rest w H. unfold prompt_directory at 1. rewrite H.
  cbn [prompt_directory_loop]. unfold bind at 1, input. cbn [stdin emit]. rewrite H.
  change (fs (with_stdin rest (emit (Asked p) w))) with (fs w).
  fold (typed_path l). destruct (isdir_fs (fs w) (typed_path l)); reflexivity.
Qed.

Lemma prompt_directory_at_end : forall p w,
  stdin w = [] -> prompt_directory p w = (Raise EOFError, emit (Asked p) w).
Proof.
  intros p w H. unfold prompt_directory. rewrite H.
  cbn [prompt_directory_loop]. unfold bind, input. cbn [stdin emit]. now rewrite H.
Qed.

(** X1: what the prompt returns is a directory that exists; the prompt
    itself changes neither the file system nor the statistics, and asks
    nothing else of the system. *)
Theorem prompt_directory_returns_directory : forall p w d w',
  prompt_directory p w = (Ok d, w') ->
  (exists es, stat (fs w) d = Ok (Dir es))
  /\ fs w' = fs w /\ stats w' = stats w /\ trace w' = trace w.
Proof.
  intros p w d w'. remember (stdin w) as lines eqn:Hlines.
  revert w Hlines. induction lines as [|l lines IH]; intros w Hlines H.
  - rewrite prompt_directory_at_end in H by auto. discriminate H.
  - rewrite (prompt_directory_turn p l lines w) in H by auto.
    destruct (isdir_fs (fs w) (typed_path l)) eqn:Hdir.
    + injection H as <- <-. split; [now apply isdir_fs_true | auto].
    + apply IH in H; [exact H | reflexivity].
Qed.

Lemma prompt_directory_returns_directory_witness :
  (exists es, stat (fs Scenario.typing) ["in"] = Ok (Dir es))
  /\ fs (snd (prompt_directory AskInputDir Scenario.typing)) = fs Scenario.typing
  /\ stats (snd (prompt_directory AskInputDir Scenario.typing)) = stats Scenario.typing
  /\ trace (snd (prompt_directory AskInputDir Scenario.typing)) = trace Scenario.typing.
Proof.
  apply (prompt_directory_returns_directory AskInputDir Scenario.typing ["in"]).
  reflexivity.
Defined.

(** X2: lines that name no directory are answered with a complaint and
    asked again; the first line that names one is returned as a path,
    and the lines after it are left on standard input. *)
Theorem prompt_directory_asks_again : forall p bad good rest w,
  Forall (fun l => isdir_fs (fs w) (typed_path l) = false) bad ->
  isdir_fs (fs w) (typed_path good) = true ->
  stdin w = bad ++ good :: rest ->
  prompt_directory p w
  = (Ok (Path_of_str (typed_path good)),
     with_stdin rest
       (emit_all (flat_map (fun l => [Asked p; DirNotFound (typed_path l)]) bad
                  ++ [Asked p]) w)).
Proof.
  intros p bad; induction bad as [|l bad IH]; intros good rest w Hbad Hgood Hin.
  - rewrite (prompt_directory_turn p good rest w Hin), Hgood. reflexivity.
  - inversion Hbad as [|? ? Hl Hbad']; subst.
    rewrite (prompt_directory_turn p l (bad ++ good :: rest) w Hin), Hl.
    rewrite (IH good rest); [| exact Hbad' | exact Hgood | reflexivity].
    f_equal. unfold with_stdin, emit_all, emit; simpl.
    now rewrite <- !app_assoc.
Qed.

Lemma prompt_directory_asks_again_witness :
  prompt_directory AskInputDir Scenario.typing
  = (Ok (Path_of_str (typed_path " in ")),
     with_stdin ["out"; "3"]
       (emit_all (flat_map (fun l => [Asked AskInputDir; DirNotFound (typed_path l)])
                    ["nope"]
                  ++ [Asked AskInputDir]) Scenario.typing)).
Proof.
  apply (prompt_directory_asks_again AskInputDir ["nope"] " in " ["out"; "3"]
           Scenario.typing).
  - repeat constructor.
  - reflexivity.
  - reflexivity.
Defined.

(** X3: when no line left on standard input names a directory, the
    prompt reads them all and ends in [EOFError]; it never returns a
    path that is not a directory. *)
Theorem prompt_directory_end_of_input : forall p w,
  Forall (fun l => isdir_fs (fs w) (typed_path l) = false) (stdin w) ->
  fst (prompt_directory p w) = Raise EOFError
  /\ stdin (snd (prompt_directory p w)) = [].
Proof.
  intros p w. remember (stdin w) as lines eqn:Hlines.
  revert w Hlines. induction lines as [|l lines IH]; intros w Hlines Hbad.
  - rewrite prompt_directory_at_end by auto. split; [reflexivity | now simpl].
  - inversion Hbad as [|? ? Hl Hbad']; subst.
    rewrite (prompt_directory_turn p l lines w) by auto. rewrite Hl.
    apply IH; [reflexivity | exact Hbad'].
Qed.

Lemma prompt_directory_end_of_input_witness :
  fst (prompt_directory AskInputDir Scenario.mistyping) = Raise EOFError
  /\ stdin (snd (prompt_directory AskInputDir Scenario.mistyping)) = [].
Proof.
  apply (prompt_directory_end_of_input AskInputDir Scenario.mistyping).
  repeat constructor.
Defined.

(** ** The adapter, further *)

Lemma assoc_assoc_set : forall k c v es,
  assoc k (assoc_set c v es) = if String.eqb k c then Some v else assoc k es.
Proof.
  intros k c v es; induction es as [|[k' v'] es IH]; simpl.
  - reflexivity.
  - destruct (String.eqb_spec c k') as [-> | Hck]; simpl.
    + destruct (String.eqb k k'); reflexivity.
    + rewrite IH. destruct (String.eqb_spec k k') as [-> | Hkk]; [|reflexivity].
      destruct (String.eqb_spec k' c) as [-> | _]; [contradiction | reflexivity].
Qed.

Lemma assoc_app : forall k es es',
  assoc k (es ++ es') = match assoc k es with Some v => Some v | None => assoc k es' end.
Proof.
  intros k es es'; induction es as [|[k' v'] es IH]; simpl; [reflexivity|].
  destruct (String.eqb k k'); [reflexivity | exact IH].
Qed.

Lemma stat_fresh_dirs : forall p, exists es, stat (fresh_dirs p) p = Ok (Dir es).
Proof.
  induction p as [|c p IH]; simpl; [now exists []|].
  now rewrite String.eqb_refl.
Qed.

(** Making a directory raises one of two exceptions only. *)
Lemma mkdir_fs_raises : forall p t e, mkdir_fs t p = Raise e -> mkdir_error e.
Proof.
  unfold mkdir_error.
  induction p as [|c p IH]; intros t e; simpl.
  - destruct t; intros H; try discriminate H; injection H as <-; auto.
  - destruct t as [n | | es]; try (intros H; injection H as <-; now auto).
    destruct (assoc c es) as [child|]; [|discriminate].
    destruct (mkdir_fs child p) as [child' | x] eqn:Hc; [discriminate|].
    intros H; injection H as <-. eapply IH; eauto.
Qed.

(** Once made, the directory is there. *)
Lemma mkdir_fs_makes_dir : forall p t t',
  mkdir_fs t p = Ok t' -> exists es, stat t' p = Ok (Dir es).
Proof.
  induction p as [|c p IH]; intros t t'; simpl.
  - destruct t as [n | | es]; try discriminate. intros H; injection H as <-.
    now exists es.
  - destruct t as [n | | es]; try discriminate.
    destruct (assoc c es) as [child|] eqn:Hc.
    + destruct (mkdir_fs child p) as [child' | x] eqn:Hm; [|discriminate].
      intros H; injection H as <-. rewrite assoc_assoc_set, String.eqb_refl.
      eapply IH; eauto.
    + intros H; injection H as <-. rewrite assoc_app, Hc. simpl.
      rewrite String.eqb_refl. apply stat_fresh_dirs.
Qed.

(** Making a directory leaves every regular file as it was. *)
Lemma mkdir_fs_keeps_files : forall p t t' q n,
  mkdir_fs t p = Ok t' -> stat t q = Ok (File n) -> stat t' q = Ok (File n).
Proof.
  induction p as [|c p IH]; intros t t' q n; simpl.
  - destruct t as [k | | es]; try discriminate. now intros H; injection H as <-.
  - destruct t as [k | | es]; try discriminate.
    destruct q as [|d q]; [discriminate 2|]. simpl.
    destruct (assoc c es) as [child|] eqn:Hc.
    + destruct (mkdir_fs child p) as [child' | x] eqn:Hm; [|discriminate].
      intros H; injection H as <-. rewrite assoc_assoc_set.
      destruct (String.eqb_spec d c) as [-> | Hd]; [|auto].
      rewrite Hc. eapply IH; eauto.
    + intros H; injection H as <-. rewrite assoc_app.
      destruct (assoc d es); [auto | discriminate].
Qed.

(** X4: the adapter raises exactly when making the output directory
    raises, and then with that exception; every other failure is
    returned as a tuple. *)
Theorem compress_pdf_raises_iff_mkdir_raises : forall programs inp out q w e,
  fst (compress_pdf programs inp out q w) = Raise e
  <-> mkdir_fs (fs w) (parent out) = Raise e.
Proof.
  intros programs inp out q w e. split.
  - destruct (mkdir_fs (fs w) (parent out)) as [t1 | x] eqn:Hdir.
    + destruct (compress_pdf_swallows_inside_try programs inp out q w t1 Hdir)
        as [(n & m & H) | H]; rewrite H; discriminate.
    + rewrite (compress_pdf_mkdir_escapes programs inp out q w x Hdir).
      congruence.
  - apply compress_pdf_mkdir_escapes.
Qed.

(** What the adapter leaves in a future. *)
Lemma compress_pdf_holds_future : forall programs inp out q w,
  future_of (inp, out) (fst (compress_pdf programs inp out q w)).
Proof.
  intros programs inp out q w.
  destruct (mkdir_fs (fs w) (parent out)) as [t1 | x] eqn:Hdir.
  - destruct (compress_pdf_swallows_inside_try programs inp out q w t1 Hdir)
      as [(n & m & H) | H]; rewrite H; simpl; split; auto; discriminate.
  - rewrite (compress_pdf_mkdir_escapes programs inp out q w x Hdir). simpl.
    eapply mkdir_fs_raises; eauto.
Qed.



(** X6: when the input cannot be measured the tool is not run: the
    adapter returns the failed tuple, and the file system is as making
    the output directory left it. *)
Theorem compress_pdf_unmeasured_input_skips_tool :
  forall programs inp out q w t1 e,
    mkdir_fs (fs w) (parent out) = Ok t1 ->
    getsize_fs t1 inp = Raise e ->
    fst (compress_pdf programs inp out q w) = Ok (false, 0%Z, 0%Z, str_of_Path inp)
    /\ fs (snd (compress_pdf programs inp out q w)) = t1
    /\ trace (snd (compress_pdf programs inp out q w))
       = trace w ++ [EvMkdir (parent out); EvGetsize inp].
Proof.
  intros programs inp out q w t1 e Hdir Hsize.
  rewrite compress_pdf_run, Hdir. cbv zeta. rewrite Hsize.
  repeat split. simpl. now rewrite <- app_assoc.
Qed.

Lemma compress_pdf_unmeasured_input_skips_tool_witness :
  fst (compress_pdf Scenario.gs ["in"; "a"; "1.pdf"] ["out"; "a"; "1.pdf"] "/ebook"
         Scenario.vanished)
  = Ok (false, 0%Z, 0%Z, str_of_Path ["in"; "a"; "1.pdf"])
  /\ fs (snd (compress_pdf Scenario.gs ["in"; "a"; "1.pdf"] ["out"; "a"; "1.pdf"]
                "/ebook" Scenario.vanished))
     = Dir [("in", Dir [("a", Dir []); ("b", Dir [("2.pdf", File 2000)])]);
            ("out", Dir [("a", Dir [])])]
  /\ trace (snd (compress_pdf Scenario.gs ["in"; "a"; "1.pdf"] ["out"; "a"; "1.pdf"]
                   "/ebook" Scenario.vanished))
     = trace Scenario.vanished
       ++ [EvMkdir (parent ["out"; "a"; "1.pdf"]); EvGetsize ["in"; "a"; "1.pdf"]].
Proof.
  apply (compress_pdf_unmeasured_input_skips_tool Scenario.gs
           ["in"; "a"; "1.pdf"] ["out"; "a"; "1.pdf"] "/ebook" Scenario.vanished
           _ FileNotFoundError); reflexivity.
Defined.

(** X7: making the output directory does not touch the input: the size
    a successful tuple reports as original is the size the input, a
    regular file, had when the task began. *)
Theorem compress_pdf_original_size : forall programs inp out q w n m s size,
  fst (compress_pdf programs inp out q w) = Ok (true, n, m, s) ->
  stat (fs w) inp = Ok (File size) ->
  n = size.
Proof.
  intros programs inp out q w n m s size H Hstat.
  rewrite compress_pdf_run in H. cbv zeta in H.
  destruct (mkdir_fs (fs w) (parent out)) as [t1 | x] eqn:Hdir; [|discriminate H].
  pose proof (mkdir_fs_keeps_files _ _ _ _ _ Hdir Hstat) as Hkept.
  unfold getsize_fs in H at 1. rewrite Hkept in H.
  destruct (programs (gs_command inp out q) t1) as [[| code o e] t2];
    [discriminate H|].
  destruct (code =? 0)%Z; [|discriminate H].
  destruct (getsize_fs t2 out); simpl in H; congruence.
Qed.

Lemma compress_pdf_original_size_witness : 1000%Z = 1000%Z.
Proof.
  apply (compress_pdf_original_size Scenario.gs ["in"; "a"; "1.pdf"]
           ["out"; "a"; "1.pdf"] "/ebook" Scenario.world 1000 500 "in/a/1.pdf" 1000);
    reflexivity.
Defined.

(** X8: whenever the tool is started for a task, the directory its
    output goes to exists in the file system it is started in. *)
Theorem compress_pdf_output_directory_exists :
  forall programs inp out q w evs c,
    trace (snd (compress_pdf programs inp out q w)) = trace w ++ evs ->
    In (EvSpawn (gs_command inp out q) c) evs ->
    exists t1 es,
      mkdir_fs (fs w) (parent out) = Ok t1
      /\ stat t1 (parent out) = Ok (Dir es)
      /\ fst (programs (gs_command inp out q) t1) = c.
Proof.
  intros programs inp out q w evs c Htrace Hin.
  rewrite compress_pdf_run in Htrace. cbv zeta in Htrace.
  destruct (mkdir_fs (fs w) (parent out)) as [t1 | x] eqn:Hdir;
    [|pin_events Htrace; spawn_in Hin].
  destruct (mkdir_fs_makes_dir _ _ _ Hdir) as (es & Hes).
  exists t1, es. repeat split; auto.
  destruct (getsize_fs t1 inp) as [n | x];
    [|pin_events Htrace; spawn_in Hin].
  destruct (programs (gs_command inp out q) t1) as [[| code o e] t2]; simpl.
  - pin_events Htrace; spawn_in Hin. now injection Hin.
  - destruct (code =? 0)%Z; [destruct (getsize_fs t2 out)|];
      pin_events Htrace; spawn_in Hin; now injection Hin.
Qed.

Lemma compress_pdf_output_directory_exists_witness :
  exists t1 es,
    mkdir_fs (fs Scenario.world) (parent ["out"; "b"; "2.pdf"]) = Ok t1
    /\ stat t1 (parent ["out"; "b"; "2.pdf"]) = Ok (Dir es)
    /\ fst (Scenario.gs (gs_command ["in"; "b"; "2.pdf"] ["out"; "b"; "2.pdf"] "/ebook")
              t1)
       = Exited 1 "" "damaged file".
Proof.
  apply (compress_pdf_output_directory_exists Scenario.gs
           ["in"; "b"; "2.pdf"] ["out"; "b"; "2.pdf"] "/ebook" Scenario.world
           [EvMkdir ["out"; "b"]; EvGetsize ["in"; "b"; "2.pdf"];
            EvSpawn (gs_command ["in"; "b"; "2.pdf"] ["out"; "b"; "2.pdf"] "/ebook")
              (Exited 1 "" "damaged file")]).
  - reflexivity.
  - simpl; auto.
Defined.

(** ** The scanner and the planner, further *)

Lemma find_all_pdfs_without_root : forall fs root_dir,
  (forall es, stat fs root_dir <> Ok (Dir es)) ->
  find_all_pdfs fs root_dir = [].
Proof.
  intros fs root_dir H; unfold find_all_pdfs, os_walk.
  destruct (stat fs root_dir) as [[n | | es] | e]; try reflexivity.
  now contradiction (H es).
Qed.

(** X9: an input root that is missing, or that is not a directory, is
    no error: the scanner finds nothing, and in a fresh process the batch
    ends normally, reporting a total of 0 with neither sizes nor a
    failure list. *)
Theorem process_all_without_root :
  forall programs choices input_dir output_dir quality w,
    (forall es, stat (fs w) input_dir <> Ok (Dir es)) ->
    stats w = Stats_init ->
    find_all_pdfs (fs w) input_dir = []
    /\ fst (process_all programs choices input_dir output_dir quality w) = Ok tt
    /\ stats (snd (process_all programs choices input_dir output_dir quality w))
       = Stats_init
    /\ stdout (snd (process_all programs choices input_dir output_dir quality w))
       = stdout w ++ [Found 0; Rule; SummaryTitle; Processed 0; Succeeded 0;
                      WithErrors 0; Rule].
Proof.
  intros programs choices input_dir output_dir quality w Hroot Hinit.
  pose proof (find_all_pdfs_without_root _ _ Hroot) as Hnone.
  split; [exact Hnone|].
  destruct (process_all_run programs choices input_dir output_dir quality (fs w))
    as (futures & t & evs & Hlen & H).
  rewrite (H w eq_refl). rewrite Hnone in *.
  destruct futures; [|discriminate Hlen].
  cbn [for_each]. rewrite bind_ret, print_summary_eq.
  cbn [fst snd stats stdout extend emit emit_all with_stats].
  rewrite Hinit. cbn. rewrite <- app_assoc. auto.
Qed.

Lemma process_all_without_root_witness :
  find_all_pdfs (fs Scenario.world) ["elsewhere"] = []
  /\ fst (process_all Scenario.gs [] ["elsewhere"] ["out"] "/ebook" Scenario.world)
     = Ok tt
  /\ stats (snd (process_all Scenario.gs [] ["elsewhere"] ["out"] "/ebook"
                   Scenario.world))
     = Stats_init
  /\ stdout (snd (process_all Scenario.gs [] ["elsewhere"] ["out"] "/ebook"
                    Scenario.world))
     = stdout Scenario.world
       ++ [Found 0; Rule; SummaryTitle; Processed 0; Succeeded 0; WithErrors 0; Rule].
Proof.
  apply (process_all_without_root Scenario.gs [] ["elsewhere"] ["out"] "/ebook"
           Scenario.world).
  - intros es; simpl; discriminate.
  - reflexivity.
Defined.

Lemma relative_to_sound : forall base p rel,
  relative_to p base = Ok rel -> p = joinpath base rel.
Proof.
  induction base as [|b base IH]; intros p rel; simpl.
  - now intros H; injection H as <-.
  - destruct p as [|c p]; [discriminate|].
    destruct (String.eqb_spec c b) as [-> | _]; [|discriminate].
    intros H. apply IH in H. unfold joinpath in *. simpl. now rewrite H.
Qed.

Lemma relative_to_raises : forall base p e,
  relative_to p base = Raise e -> e = ValueError.
Proof.
  induction base as [|b base IH]; intros p e; simpl; [discriminate|].
  destruct p as [|c p]; [now intros H; injection H as <-|].
  destruct (String.eqb c b); [apply IH | now intros H; injection H as <-].
Qed.

Lemma plan_tasks_sound : forall input_dir output_dir pdf_files tasks,
  plan_tasks input_dir output_dir pdf_files = Ok tasks ->
  map fst tasks = pdf_files
  /\ Forall (fun task => exists rel,
               fst task = joinpath input_dir rel
               /\ snd task = joinpath output_dir rel) tasks.
Proof.
  intros input_dir output_dir; induction pdf_files as [|p files IH]; intros tasks; simpl.
  - intros H; injection H as <-. split; [reflexivity | constructor].
  - destruct (relative_to p input_dir) as [rel | e] eqn:Hrel; [|discriminate].
    destruct (plan_tasks input_dir output_dir files) as [rest | e]; [|discriminate].
    intros H; injection H as <-. destruct (IH rest eq_refl) as [Hfst Hall].
    simpl. rewrite Hfst. split; [reflexivity|].
    constructor; [|exact Hall]. exists rel. split; [|reflexivity].
    now apply relative_to_sound.
Qed.

(** X10: planning succeeds exactly when every file lies below the input
    root; otherwise it raises [ValueError]. *)
Theorem plan_tasks_succeeds_iff_below_root : forall input_dir output_dir pdf_files,
  ((exists tasks, plan_tasks input_dir output_dir pdf_files = Ok tasks)
   <-> Forall (fun p => exists rel, p = joinpath input_dir rel) pdf_files)
  /\ (forall e, plan_tasks input_dir output_dir pdf_files = Raise e -> e = ValueError).
Proof.
  intros input_dir output_dir pdf_files. split; [split|].
  - intros (tasks & H). apply plan_tasks_sound in H as [Hfst Hall].
    subst pdf_files. induction Hall as [|task tasks (rel & Hrel & _) _ IH]; simpl.
    + constructor.
    + constructor; [now exists rel | exact IH].
  - intros H. rewrite Forall_forall in H.
    destruct (plan_tasks_mirrors input_dir output_dir pdf_files H) as (tasks & Ht & _).
    now exists tasks.
  - induction pdf_files as [|p files IH]; intros e; simpl; [discriminate|].
    destruct (relative_to p input_dir) as [rel | x] eqn:Hrel.
    + destruct (plan_tasks input_dir output_dir files) as [rest | x];
        [discriminate|]. intros H; injection H as <-. now apply IH.
    + intros H; injection H as <-. eapply relative_to_raises; eauto.
Qed.

(** X11: two tasks of a plan that write to the same output path read the
    same input: files that differ never share an output. *)
Theorem plan_tasks_outputs_distinct :
  forall input_dir output_dir pdf_files tasks task1 task2,
    plan_tasks input_dir output_dir pdf_files = Ok tasks ->
    In task1 tasks -> In task2 tasks ->
    snd task1 = snd task2 -> fst task1 = fst task2.
Proof.
  intros input_dir output_dir pdf_files tasks task1 task2 Hplan H1 H2 Hout.
  apply plan_tasks_sound in Hplan as [_ Hall]. rewrite Forall_forall in Hall.
  destruct (Hall _ H1) as (rel1 & Hin1 & Hout1).
  destruct (Hall _ H2) as (rel2 & Hin2 & Hout2).
  rewrite Hout1, Hout2 in Hout. apply app_inv_head in Hout.
  now rewrite Hin1, Hin2, Hout.
Qed.

Lemma plan_tasks_outputs_distinct_witness :
  fst (["in"; "a"; "1.pdf"], ["out"; "a"; "1.pdf"])
  = fst (["in"; "a"; "1.pdf"], ["out"; "a"; "1.pdf"]).
Proof.
  apply (plan_tasks_outputs_distinct ["in"] ["out"]
           (find_all_pdfs Scenario.tree ["in"])
           [(["in"; "a"; "1.pdf"], ["out"; "a"; "1.pdf"]);
            (["in"; "b"; "2.pdf"], ["out"; "b"; "2.pdf"])]).
  - reflexivity.
  - simpl; auto.
  - simpl; auto.
  - reflexivity.
Defined.

Lemma plan_tasks_succeeds_iff_below_root_witness :
  (exists tasks, plan_tasks ["in"] ["out"] [["in"; "a"; "1.pdf"]] = Ok tasks)
  /\ ValueError = ValueError.
Proof.
  split.
  - apply (proj1 (plan_tasks_succeeds_iff_below_root ["in"] ["out"]
                    [["in"; "a"; "1.pdf"]])).
    repeat constructor. now exists ["a"; "1.pdf"].
  - apply (proj2 (plan_tasks_succeeds_iff_below_root ["in"] ["out"]
                    [["elsewhere"; "x.pdf"]])).
    reflexivity.
Defined.

(** ** The pool and the reporter, further *)

(** The pool, with what its futures hold. *)
Lemma run_pool_futures : forall programs q tasks t0,
  exists futures t evs,
    Forall2 future_of tasks futures
    /\ forall w, fs w = t0 ->
         run_pool programs tasks q w = (Ok futures, extend t evs w).
Proof.
  intros programs q; induction tasks as [|[inp out] tasks IH]; intros t0.
  - exists [], t0, []. split; [constructor|]. intros w <-.
    unfold extend; simpl. rewrite app_nil_r. now destruct w.
  - destruct (compress_pdf_frame programs inp out q t0) as (r & t1 & evs1 & H1).
    destruct (IH t1) as (futures & t2 & evs2 & Hall & H2).
    exists (r :: futures), t2, (evs1 ++ evs2). split.
    + constructor; [|exact Hall].
      pose proof (compress_pdf_holds_future programs inp out q
                    {| fs := t0; stdin := []; stdout := []; stats := Stats_init;
                       trace := [] |}) as Hf.
      now rewrite H1 in Hf.
    + intros w Hw. cbn [run_pool]. rewrite (H1 w Hw).
      unfold bind. rewrite (H2 (extend t1 evs1 w) eq_refl).
      unfold ret, extend; simpl. now rewrite app_assoc.
Qed.



(** A batch with its pool laid open: the futures do not depend on the
    order in which they are handed back. *)
Lemma process_all_pool : forall programs input_dir output_dir quality t0,
  exists tasks futures t evs,
    plan_tasks input_dir output_dir (find_all_pdfs t0 input_dir) = Ok tasks
    /\ map fst tasks = find_all_pdfs t0 input_dir
    /\ Forall2 future_of tasks futures
    /\ forall choices w, fs w = t0 ->
         process_all programs choices input_dir output_dir quality w
         = (for_each (as_completed choices futures) aggregate_one ;; print_summary)
             (extend t (EvWalk input_dir :: evs)
                (emit (Found (Z.of_nat (List.length (find_all_pdfs t0 input_dir))))
                   (with_stats
                      (set_total (Z.of_nat (List.length (find_all_pdfs t0 input_dir)))
                         (stats w)) w))).
Proof.
  intros programs input_dir output_dir quality t0.
  destruct (plan_tasks_mirrors input_dir output_dir (find_all_pdfs t0 input_dir))
    as (tasks & Hplan & Hfst & _).
  { intros p Hp; eapply find_all_pdfs_below_root; eauto. }
  destruct (run_pool_futures programs quality tasks t0)
    as (futures & t & evs & Hall & Hpool).
  exists tasks, futures, t, evs. repeat split; auto.
  intros choices w <-. unfold process_all.
  rewrite bind_scan, bind_get_stats, bind_set_stats, bind_print, Hplan, bind_lift_Ok.
  unfold bind at 1. rewrite Hpool by reflexivity.
  f_equal. unfold extend, emit, with_stats, record; simpl.
  now rewrite <- app_assoc.
Qed.


Lemma aggregate_ok : forall futures w u,
  fst (for_each futures aggregate_one w) = Ok u -> exists rs, futures = map Ok rs.
Proof.
  induction futures as [|f futures IH]; intros w u; [now exists []|].
  rewrite for_each_cons, aggregate_one_run.
  destruct f as [[[[[|] orig] comp] path] | x]; simpl; try discriminate;
    intros H; apply IH in H as (rs & ->);
    now eexists (_ :: rs).
Qed.

(** The aggregation of tuples, as one update of the statistics. *)
Lemma aggregate_tuples : forall rs w,
  for_each (map Ok rs) aggregate_one w
  = (Ok tt,
     with_stats
       {| total := total (stats w);
          success := success (stats w) + Z.of_nat (List.length (filter succeeded rs));
          failed := failed (stats w)
                    + Z.of_nat (List.length (filter (fun r => negb (succeeded r)) rs));
          errors := errors (stats w)
                    ++ map path_of (filter (fun r => negb (succeeded r)) rs);
          original_size := original_size (stats w)
                           + sum_sizes (map size_before (filter succeeded rs));
          compressed_size := compressed_size (stats w)
                             + sum_sizes (map size_after (filter succeeded rs)) |}
       w).
Proof.
  induction rs as [|r rs IH]; intros w.
  - simpl. rewrite !Z.add_0_r, app_nil_r. now destruct w as [? ? ? [] ?].
  - change (map Ok (r :: rs)) with (Ok r :: map Ok rs).
    rewrite for_each_cons, aggregate_one_run.
    destruct r as [[[[|] orig] comp] path]; rewrite IH;
      unfold with_stats, count_success, count_failure;
      cbn [fs stdin stdout stats trace total success failed errors original_size
           compressed_size filter succeeded negb map path_of size_before size_after
           sum_sizes fold_right List.length];
      do 2 f_equal; f_equal; unfold sum_sizes; try lia; now rewrite <- app_assoc.
Qed.

(** X13: the aggregation of tuples, exactly: the successes are counted
    and their sizes summed, the failures are counted and their paths
    appended in the order they come; a failure adds to no sum, a success
    to no list, and the total is not touched. *)
Theorem aggregate_accounts : forall rs w,
  fst (for_each (map Ok rs) aggregate_one w) = Ok tt
  /\ total (stats (snd (for_each (map Ok rs) aggregate_one w))) = total (stats w)
  /\ success (stats (snd (for_each (map Ok rs) aggregate_one w)))
     = (success (stats w) + Z.of_nat (List.length (filter succeeded rs)))%Z
  /\ failed (stats (snd (for_each (map Ok rs) aggregate_one w)))
     = (failed (stats w)
        + Z.of_nat (List.length (filter (fun r => negb (succeeded r)) rs)))%Z
  /\ errors (stats (snd (for_each (map Ok rs) aggregate_one w)))
     = errors (stats w) ++ map path_of (filter (fun r => negb (succeeded r)) rs)
  /\ original_size (stats (snd (for_each (map Ok rs) aggregate_one w)))
     = (original_size (stats w)
        + sum_sizes (map size_before (filter succeeded rs)))%Z
  /\ compressed_size (stats (snd (for_each (map Ok rs) aggregate_one w)))
     = (compressed_size (stats w)
        + sum_sizes (map size_after (filter succeeded rs)))%Z.
Proof.
  intros rs w. rewrite aggregate_tuples.
  cbn [fst snd stats with_stats total success failed errors original_size
       compressed_size].
  repeat split.
Qed.

Lemma Forall2_in_right : forall (A B : Type) (P : A -> B -> Prop) l1 l2 y,
  Forall2 P l1 l2 -> In y l2 -> exists x, In x l1 /\ P x y.
Proof.
  intros A B P l1 l2 y H; induction H as [|a b l1 l2 Hab _ IH]; intros Hin.
  - destruct Hin.
  - destruct Hin as [<- | Hin].
    + exists a; split; [now left | exact Hab].
    + destruct (IH Hin) as (x & Hx & Hp). exists x; split; [now right | exact Hp].
Qed.



Lemma filter_permutation : forall (A : Type) (f : A -> bool) l l',
  Permutation l l' -> Permutation (filter f l) (filter f l').
Proof.
  intros A f l l' H; induction H as [| x l l' _ IH | x y l | l l' l'' _ IH1 _ IH2];
    simpl.
  - constructor.
  - destruct (f x); [now constructor | exact IH].
  - destruct (f x), (f y); try reflexivity. apply perm_swap.
  - etransitivity; eauto.
Qed.

Lemma sum_sizes_permutation : forall l l',
  Permutation l l' -> sum_sizes l = sum_sizes l'.
Proof.
  intros l l' H; unfold sum_sizes;
    induction H as [| x l l' _ IH | x y l | l l' l'' _ IH1 _ IH2]; simpl; lia.
Qed.

(** X15: the order in which the workers finish changes nothing but the
    order of the failure list.  If a batch runs to its end, it does so in
    every completion order, with the same counts and the same sums, and
    with the same failures listed. *)
Theorem process_all_order_independent :
  forall programs choices1 choices2 input_dir output_dir quality w w1,
    process_all programs choices1 input_dir output_dir quality w = (Ok tt, w1) ->
    exists w2,
      process_all programs choices2 input_dir output_dir quality w = (Ok tt, w2)
      /\ total (stats w2) = total (stats w1)
      /\ success (stats w2) = success (stats w1)
      /\ failed (stats w2) = failed (stats w1)
      /\ original_size (stats w2) = original_size (stats w1)
      /\ compressed_size (stats w2) = compressed_size (stats w1)
      /\ Permutation (errors (stats w2)) (errors (stats w1)).
Proof.
  intros programs choices1 choices2 input_dir output_dir quality w w1 H.
  destruct (process_all_pool programs input_dir output_dir quality (fs w))
    as (tasks & futures & t & evs & _ & _ & _ & Hrun).
  rewrite (Hrun choices1 w eq_refl) in H. rewrite (Hrun choices2 w eq_refl).
  match type of H with
  | bind (for_each ?fut1 _) _ ?w0 = _ =>
      destruct (bind_print_summary (for_each fut1 aggregate_one) w0) as [Hfst _];
      rewrite H in Hfst; symmetry in Hfst; simpl in Hfst;
      destruct (aggregate_ok _ _ _ Hfst) as (rs1 & Hrs1)
  end.
  assert (Hperm : Permutation (as_completed choices2 futures) (map Ok rs1)).
  { rewrite <- Hrs1. etransitivity; [apply as_completed_permutation|].
    symmetry; apply as_completed_permutation. }
  apply Permutation_map_inv in Hperm as (rs2 & Hrs2 & Hperm).
  rewrite Hrs1 in H. rewrite Hrs2.
  unfold bind in H |- *. rewrite aggregate_tuples in H |- *.
  rewrite print_summary_eq in H |- *. injection H as <-.
  eexists; split; [reflexivity|].
  cbn [stats emit_all with_stats total success failed errors original_size
       compressed_size].
  pose proof (filter_permutation _ succeeded _ _ Hperm) as Hs.
  pose proof (filter_permutation _ (fun r => negb (succeeded r)) _ _ Hperm) as Hf.
  repeat split.
  - now rewrite (Permutation_length Hs).
  - now rewrite (Permutation_length Hf).
  - f_equal. symmetry. apply sum_sizes_permutation, Permutation_map, Hs.
  - f_equal. symmetry. apply sum_sizes_permutation, Permutation_map, Hs.
  - apply Permutation_app_head, Permutation_map. symmetry; exact Hf.
Qed.

Lemma process_all_order_independent_witness :
  exists w2,
    process_all Scenario.gs [1%nat] ["in"] ["out"] "/ebook" Scenario.world = (Ok tt, w2)
    /\ total (stats w2)
       = total (stats (snd (process_all Scenario.gs [] ["in"] ["out"] "/ebook"
                              Scenario.world)))
    /\ success (stats w2)
       = success (stats (snd (process_all Scenario.gs [] ["in"] ["out"] "/ebook"
                                Scenario.world)))
    /\ failed (stats w2)
       = failed (stats (snd (process_all Scenario.gs [] ["in"] ["out"] "/ebook"
                               Scenario.world)))
    /\ original_size (stats w2)
       = original_size (stats (snd (process_all Scenario.gs [] ["in"] ["out"] "/ebook"
                                      Scenario.world)))
    /\ compressed_size (stats w2)
       = compressed_size (stats (snd (process_all Scenario.gs [] ["in"] ["out"]
                                        "/ebook" Scenario.world)))
    /\ Permutation (errors (stats w2))
         (errors (stats (snd (process_all Scenario.gs [] ["in"] ["out"] "/ebook"
                                Scenario.world)))).
Proof.
  apply (process_all_order_independent Scenario.gs [] [1%nat] ["in"] ["out"] "/ebook"
           Scenario.world).
  vm_compute. reflexivity.
Defined.

Lemma aggregate_keeps_failures_counted : forall futures w,
  failures_counted (stats w) ->
  failures_counted (stats (snd (for_each futures aggregate_one w))).
Proof.
  unfold failures_counted.
  induction futures as [|f futures IH]; intros w H; [exact H|].
  rewrite for_each_cons, aggregate_one_run.
  destruct f as [[[[[|] orig] comp] path] | x]; [| |exact H]; apply IH; simpl.
  - exact H.
  - rewrite length_app, H. simpl. lia.
Qed.

(** X16: the failure counter counts the failure list.  A batch started
    with the two in step leaves them in step, however it ends. *)
Theorem process_all_keeps_failures_counted :
  forall programs choices input_dir output_dir quality w,
    failures_counted (stats w) ->
    failures_counted
      (stats (snd (process_all programs choices input_dir output_dir quality w))).
Proof.
  intros programs choices input_dir output_dir quality w H.
  destruct (process_all_run programs choices input_dir output_dir quality (fs w))
    as (futures & t & evs & _ & Hrun).
  rewrite (Hrun w eq_refl).
  match goal with
  | |- failures_counted (stats (snd (bind ?m _ ?w1))) =>
      destruct (bind_print_summary m w1) as [_ ->]
  end.
  apply aggregate_keeps_failures_counted. exact H.
Qed.

Lemma process_all_keeps_failures_counted_witness :
  failures_counted
    (stats (snd (process_all Scenario.gs [] ["in"] ["out"] "/ebook" Scenario.world))).
Proof.
  apply (process_all_keeps_failures_counted Scenario.gs [] ["in"] ["out"] "/ebook"
           Scenario.world).
  reflexivity.
Defined.

Lemma aggregate_counts_bounded : forall futures w,
  total (stats (snd (for_each futures aggregate_one w))) = total (stats w)
  /\ (success (stats w) <= success (stats (snd (for_each futures aggregate_one w))))%Z
  /\ (failed (stats w) <= failed (stats (snd (for_each futures aggregate_one w))))%Z
  /\ (success (stats (snd (for_each futures aggregate_one w)))
      + failed (stats (snd (for_each futures aggregate_one w)))
      <= success (stats w) + failed (stats w) + Z.of_nat (List.length futures))%Z.
Proof.
  induction futures as [|f futures IH]; intros w.
  - simpl. lia.
  - rewrite for_each_cons, aggregate_one_run.
    destruct f as [[[[[|] orig] comp] path] | x];
      [specialize (IH (with_stats (count_success orig comp (stats w)) w))
      |specialize (IH (with_stats (count_failure path (stats w)) w))|];
      cbn [snd stats with_stats count_success count_failure total success failed
           List.length] in *; lia.
Qed.

(** X17: in a fresh process, however the batch ends, the total is the
    number of files found and the two counters, neither negative, never
    add up to more than it: an aborted batch leaves them short. *)
Theorem process_all_counts_bounded :
  forall programs choices input_dir output_dir quality w,
    stats w = Stats_init ->
    total (stats (snd (process_all programs choices input_dir output_dir quality w)))
    = Z.of_nat (List.length (find_all_pdfs (fs w) input_dir))
    /\ (0 <= success (stats (snd (process_all programs choices input_dir output_dir
                                    quality w))))%Z
    /\ (0 <= failed (stats (snd (process_all programs choices input_dir output_dir
                                   quality w))))%Z
    /\ (success (stats (snd (process_all programs choices input_dir output_dir
                               quality w)))
        + failed (stats (snd (process_all programs choices input_dir output_dir
                                quality w)))
        <= total (stats (snd (process_all programs choices input_dir output_dir
                                quality w))))%Z.
Proof.
  intros programs choices input_dir output_dir quality w Hinit.
  destruct (process_all_run programs choices input_dir output_dir quality (fs w))
    as (futures & t & evs & Hlen & Hrun).
  rewrite (Hrun w eq_refl).
  match goal with
  | |- context [bind ?m _ ?w1] =>
      destruct (bind_print_summary m w1) as [_ ->];
      pose proof (aggregate_counts_bounded futures w1) as (Ht & Hs & Hf & Hsum)
  end.
  cbn [stats extend emit with_stats set_total total success failed] in Ht, Hs, Hf, Hsum.
  pose proof (f_equal success Hinit) as Hs0. pose proof (f_equal failed Hinit) as Hf0.
  cbn [success failed Stats_init] in Hs0, Hf0.
  rewrite Hlen in Hsum. rewrite Ht. repeat split; lia.
Qed.

Lemma process_all_counts_bounded_witness :
  total (stats (snd (process_all Scenario.gs [] ["in"] ["out"] "/ebook" Blocked.world)))
  = Z.of_nat (List.length (find_all_pdfs (fs Blocked.world) ["in"]))
  /\ (0 <= success (stats (snd (process_all Scenario.gs [] ["in"] ["out"] "/ebook"
                                  Blocked.world))))%Z
  /\ (0 <= failed (stats (snd (process_all Scenario.gs [] ["in"] ["out"] "/ebook"
                                 Blocked.world))))%Z
  /\ (success (stats (snd (process_all Scenario.gs [] ["in"] ["out"] "/ebook"
                             Blocked.world)))
      + failed (stats (snd (process_all Scenario.gs [] ["in"] ["out"] "/ebook"
                              Blocked.world)))
      <= total (stats (snd (process_all Scenario.gs [] ["in"] ["out"] "/ebook"
                              Blocked.world))))%Z.
Proof.
  apply (process_all_counts_bounded Scenario.gs [] ["in"] ["out"] "/ebook"
           Blocked.world).
  reflexivity.
Defined.

(** X18: every path in the failure list of a batch that ran to its end
    in a fresh process is the path of a file the scanner found. *)
Theorem process_all_failures_are_found_files :
  forall programs choices input_dir output_dir quality w w',
    stats w = Stats_init ->
    process_all programs choices input_dir output_dir quality w = (Ok tt, w') ->
    Forall (fun path => exists p,
              In p (find_all_pdfs (fs w) input_dir) /\ path = str_of_Path p)
           (errors (stats w')).
Proof.
  intros programs choices input_dir output_dir quality w w' Hinit H.
  destruct (process_all_pool programs input_dir output_dir quality (fs w))
    as (tasks & futures & t & evs & _ & Hfst & Hall & Hrun).
  rewrite (Hrun choices w eq_refl) in H.
  match type of H with
  | bind (for_each ?fut _) _ ?w0 = _ =>
      destruct (bind_print_summary (for_each fut aggregate_one) w0) as [Hok _];
      rewrite H in Hok; symmetry in Hok; simpl in Hok;
      destruct (aggregate_ok _ _ _ Hok) as (rs & Hrs)
  end.
  rewrite Hrs in H. unfold bind in H. rewrite aggregate_tuples in H.
  rewrite print_summary_eq in H. injection H as <-.
  cbn [stats emit_all with_stats extend emit set_total errors]. rewrite Hinit.
  cbn [errors Stats_init app]. apply Forall_forall. intros path Hin.
  apply in_map_iff in Hin as (r & <- & Hr). apply filter_In in Hr as [Hr _].
  assert (Hf : In (Ok r) futures).
  { apply (Permutation_in _ (as_completed_permutation _ choices futures)).
    rewrite Hrs. now apply in_map. }
  destruct (Forall2_in_right _ _ _ _ _ _ Hall Hf) as (task & Htask & Hpath & _).
  exists (fst task). split; [|exact Hpath].
  rewrite <- Hfst. now apply in_map.
Qed.

Lemma process_all_failures_are_found_files_witness :
  Forall (fun path => exists p,
            In p (find_all_pdfs (fs Scenario.world) ["in"]) /\ path = str_of_Path p)
         (errors (stats (snd (process_all Scenario.gs [] ["in"] ["out"] "/ebook"
                                Scenario.world)))).
Proof.
  apply (process_all_failures_are_found_files Scenario.gs [] ["in"] ["out"] "/ebook"
           Scenario.world).
  - reflexivity.
  - vm_compute. reflexivity.
Defined.

(** X19: the summary of a batch that ran to its end lists every path of
    the failure list, provided the failure counter counted the list when
    the batch began: the listing is guarded by the counter. *)
Theorem process_all_lists_every_failure :
  forall programs choices input_dir output_dir quality w w' path,
    failures_counted (stats w) ->
    process_all programs choices input_dir output_dir quality w = (Ok tt, w') ->
    In path (errors (stats w')) ->
    In (ErrorItem path) (stdout w').
Proof.
  intros programs choices input_dir output_dir quality w w' path Hcounted H Hin.
  destruct (process_all_run programs choices input_dir output_dir quality (fs w))
    as (futures & t & evs & _ & Hrun).
  rewrite (Hrun w eq_refl) in H. unfold bind in H.
  match type of H with
  | context [for_each futures aggregate_one ?w1] =>
      pose proof (aggregate_keeps_failures_counted futures w1 Hcounted) as Hafter;
      destruct (for_each futures aggregate_one w1) as [[[] | e] w2];
      [|discriminate H]
  end.
  simpl in Hafter.
  rewrite print_summary_eq in H. injection H as <-.
  cbn [stats stdout emit_all] in *. apply in_or_app; right.
  unfold summary_lines, error_lines. unfold failures_counted in Hafter.
  destruct (errors (stats w2)) as [|x xs] eqn:Herr; [destruct Hin|].
  replace (0 <? failed (stats w2))%Z with true
    by (symmetry; apply Z.ltb_lt; rewrite Hafter; simpl; lia).
  apply in_or_app; right. apply in_or_app; right. apply in_or_app; left.
  right. now apply in_map.
Qed.

Lemma process_all_lists_every_failure_witness :
  In (ErrorItem "in/b/2.pdf")
     (stdout (snd (process_all Scenario.gs [] ["in"] ["out"] "/ebook" Scenario.world))).
Proof.
  apply (process_all_lists_every_failure Scenario.gs [] ["in"] ["out"] "/ebook"
           Scenario.world).
  - reflexivity.
  - vm_compute. reflexivity.
  - simpl. auto.
Defined.

(** ** The program as a whole, further *)

Lemma check_ghostscript_found : forall programs w out err,
  fst (programs version_probe (fs w)) = Exited 0 out err ->
  check_ghostscript programs w
  = (Ok tt,
     emit (GsFound (Str.strip out))
       (with_fs (snd (programs version_probe (fs w)))
          (record (EvSpawn version_probe (Exited 0 out err)) w))).
Proof.
  intros programs w out err H. rewrite check_ghostscript_run. cbv zeta.
  rewrite H. reflexivity.
Qed.

(** X20: with Ghostscript found and standard input at its end, the
    program greets, reports the version, asks for the input directory and
    ends in [EOFError]: nothing was walked and nothing compressed. *)
Theorem main_without_input : forall programs choices w out err,
  fst (programs version_probe (fs w)) = Exited 0 out err ->
  stdin w = [] ->
  fst (main programs choices w) = Raise EOFError
  /\ stdout (snd (main programs choices w))
     = stdout w ++ [Banner; GsFound (Str.strip out); Asked AskInputDir]
  /\ trace (snd (main programs choices w))
     = trace w ++ [EvSpawn version_probe (Exited 0 out err)]
  /\ stats (snd (main programs choices w)) = stats w.
Proof.
  intros programs choices w out err Hprobe Hin.
  assert (E : main programs choices w
              = (Raise EOFError,
                 emit (Asked AskInputDir)
                   (emit (GsFound (Str.strip out))
                      (with_fs (snd (programs version_probe (fs w)))
                         (record (EvSpawn version_probe (Exited 0 out err))
                            (emit Banner w)))))).
  { unfold main. rewrite bind_print.
    rewrite (bind_eq _ _ _ _ _ _ _
               (check_ghostscript_found programs (emit Banner w) out err Hprobe)).
    unfold bind. rewrite prompt_directory_at_end by exact Hin. reflexivity. }
  rewrite E. cbn [fst snd stdout trace stats emit with_fs record].
  rewrite <- ?app_assoc. auto.
Qed.

Lemma main_without_input_witness :
  fst (main Scenario.gs [] Scenario.unattended) = Raise EOFError
  /\ stdout (snd (main Scenario.gs [] Scenario.unattended))
     = stdout Scenario.unattended
       ++ [Banner; GsFound (Str.strip "10.02.1"); Asked AskInputDir]
  /\ trace (snd (main Scenario.gs [] Scenario.unattended))
     = trace Scenario.unattended
       ++ [EvSpawn version_probe (Exited 0 "10.02.1" "")]
  /\ stats (snd (main Scenario.gs [] Scenario.unattended)) = stats Scenario.unattended.
Proof.
  apply (main_without_input Scenario.gs [] Scenario.unattended "10.02.1" "");
    reflexivity.
Defined.

(** X21: with Ghostscript found and three answers typed, two
    directories that exist and a choice, the program runs one batch: on
    the two directories as typed and stripped, with the setting the
    choice selects, in the file system the probe left, from the
    statistics it started with, and with the lines after the three
    answers still unread. *)
Theorem main_runs_batch_on_answers :
  forall programs choices w out err l1 l2 l3 rest,
    fst (programs version_probe (fs w)) = Exited 0 out err ->
    stdin w = l1 :: l2 :: l3 :: rest ->
    isdir_fs (snd (programs version_probe (fs w))) (typed_path l1) = true ->
    isdir_fs (snd (programs version_probe (fs w))) (typed_path l2) = true ->
    exists w0,
      fs w0 = snd (programs version_probe (fs w))
      /\ stdin w0 = rest
      /\ stats w0 = stats w
      /\ trace w0 = trace w ++ [EvSpawn version_probe (Exited 0 out err)]
      /\ main programs choices w
         = (process_all programs choices
              (Path_of_str (typed_path l1)) (Path_of_str (typed_path l2))
              (Spec.setting (Spec.profile_of_choice (Str.strip l3))) ;;
            print Elapsed ;; print Thanks) w0.
Proof.
  intros programs choices w out err l1 l2 l3 rest Hprobe Hin Hd1 Hd2. unfold main.
  rewrite bind_print.
  rewrite (bind_eq _ _ _ _ _ _ _
             (check_ghostscript_found programs (emit Banner w) out err Hprobe)).
  match goal with
  | |- context [bind (prompt_directory AskInputDir) _ ?w1] =>
      rewrite (bind_eq _ _ (prompt_directory AskInputDir) _ w1 _ _
                 (eq_trans (prompt_directory_turn AskInputDir l1 (l2 :: l3 :: rest) w1 Hin)
                    (f_equal (fun b : bool => if b then _ else _) Hd1)))
  end.
  match goal with
  | |- context [bind (prompt_directory AskOutputDir) _ ?w2] =>
      rewrite (bind_eq _ _ (prompt_directory AskOutputDir) _ w2 _ _
                 (eq_trans (prompt_directory_turn AskOutputDir l2 (l3 :: rest) w2 eq_refl)
                    (f_equal (fun b : bool => if b then _ else _) Hd2)))
  end.
  match goal with
  | |- context [bind prompt_quality _ ?w3] =>
      rewrite (bind_eq _ _ prompt_quality _ w3
                 (dict_get quality_choices (Str.strip l3) "/ebook")
                 (with_stdin rest
                    (emit (Asked AskQuality)
                       (emit (QualityMenu 5) (emit (QualityMenu 4)
                          (emit (QualityMenu 3) (emit (QualityMenu 2)
                             (emit (QualityMenu 1) (emit (QualityMenu 0) w3))))))))
                 eq_refl)
  end.
  rewrite dict_get_quality.
  match goal with
  | |- context [bind (process_all _ _ _ _ _) _ ?w4] => exists w4
  end.
  repeat split.
Qed.

Lemma main_runs_batch_on_answers_witness :
  exists w0,
    fs w0 = snd (Scenario.gs version_probe (fs (with_stdin ["in"; "out"; "3"] Scenario.world)))
    /\ stdin w0 = []
    /\ stats w0 = stats (with_stdin ["in"; "out"; "3"] Scenario.world)
    /\ trace w0 = trace (with_stdin ["in"; "out"; "3"] Scenario.world)
                  ++ [EvSpawn version_probe (Exited 0 "10.02.1" "")]
    /\ main Scenario.gs [] (with_stdin ["in"; "out"; "3"] Scenario.world)
       = (process_all Scenario.gs []
            (Path_of_str (typed_path "in")) (Path_of_str (typed_path "out"))
            (Spec.setting (Spec.profile_of_choice (Str.strip "3"))) ;;
          print Elapsed ;; print Thanks) w0.
Proof.
  apply (main_runs_batch_on_answers Scenario.gs []
           (with_stdin ["in"; "out"; "3"] Scenario.world) "10.02.1" "" "in" "out" "3" []);
    reflexivity.
Defined.

(** ** The scanner finds each file once *)

Lemma NoDup_map_fst_filter : forall (f : string * node -> bool) es,
  NoDup (map fst es) -> NoDup (map fst (filter f es)).
Proof.
  intros f es; induction es as [|[n c] es IH]; simpl; intros H; [constructor|].
  inversion H as [|? ? Hn Hes]; subst. destruct (f (n, c)); simpl; [|auto].
  constructor; [|auto]. intros Hin; apply Hn.
  apply in_map_iff in Hin as (e & He & Hin). apply filter_In in Hin as [Hin _].
  apply in_map_iff. now exists e.
Qed.

Lemma NoDup_filter_names : forall (f : string -> bool) l,
  NoDup l -> NoDup (filter f l).
Proof.
  intros f l H; induction H as [|x l Hx _ IH]; simpl; [constructor|].
  destruct (f x); [|exact IH]. constructor; [|exact IH].
  intros Hin; apply Hx. now apply filter_In in Hin as [Hin _].
Qed.

Lemma NoDup_map_joinpath : forall (top : Path) l,
  NoDup l -> NoDup (map (fun file => joinpath top [file]) l).
Proof.
  intros top l H; induction H as [|x l Hx _ IH]; simpl; constructor; [|exact IH].
  intros Hin. apply in_map_iff in Hin as (y & Hy & Hin).
  unfold joinpath in Hy. apply app_inv_head in Hy. injection Hy as ->. contradiction.
Qed.

Lemma walk_finds_below : forall t top p,
  In p (pdfs_of_walk (walk top t)) -> exists rel, p = joinpath top rel /\ rel <> [].
Proof.
  intros t top p H. apply walk_finds in H as (rel & x & -> & Hb & _).
  exists rel; split; [reflexivity | eapply beneath_nonempty; eauto].
Qed.

Lemma walk_finds_once : forall t,
  distinct_names t -> forall top, NoDup (pdfs_of_walk (walk top t)).
Proof.
  induction t as [n | | es IH] using node_induction; intros Hd top;
    try (simpl; constructor).
  inversion Hd as [| | es' Hnames Hsub]; subst.
  rewrite walk_Dir.
  match goal with
  | |- context [pdfs_of_walk (?a :: ?l)] =>
      change (a :: l) with ([a] ++ l); rewrite pdfs_of_walk_app
  end.
  apply NoDup_app.
  - unfold pdfs_of_walk; simpl. rewrite app_nil_r.
    apply NoDup_map_joinpath, NoDup_filter_names, NoDup_map_fst_filter, Hnames.
  - clear Hd. induction es as [|[n c] es IHes]; simpl; [constructor|].
    rewrite pdfs_of_walk_app.
    inversion IH as [|? ? IHc IH']; subst.
    inversion Hsub as [|? ? Hc Hsub']; subst.
    inversion Hnames as [|? ? Hn Hnames']; subst.
    apply NoDup_app; [now apply IHc | now apply IHes |].
    intros p Hp Hq. apply walk_finds_below in Hp as (rel & -> & _).
    apply in_pdfs_of_walk_flat_map in Hq as ([n' c'] & Hin & Hq). simpl in Hq.
    apply walk_finds_below in Hq as (rel' & Heq & _).
    unfold joinpath in Heq. rewrite <- !app_assoc in Heq.
    apply app_inv_head in Heq. injection Heq as -> _.
    apply Hn. apply in_map_iff. now exists (n', c').
  - intros p Hp Hq. unfold pdfs_of_walk in Hp; simpl in Hp. rewrite app_nil_r in Hp.
    apply in_map_iff in Hp as (file & <- & _).
    apply in_pdfs_of_walk_flat_map in Hq as ([n c] & _ & Hq). simpl in Hq.
    apply walk_finds_below in Hq as (rel & Heq & Hrel).
    unfold joinpath in Heq. rewrite <- app_assoc in Heq.
    apply app_inv_head in Heq. destruct rel; [contradiction | discriminate Heq].
Qed.

Lemma stat_distinct_names : forall p t t',
  distinct_names t -> stat t p = Ok t' -> distinct_names t'.
Proof.
  induction p as [|c p IH]; intros t t' Hd; simpl.
  - now intros H; injection H as <-.
  - destruct t as [n | | es]; try discriminate.
    destruct (assoc c es) as [child|] eqn:Hc; [|discriminate].
    apply IH. inversion Hd as [| | es' _ Hsub]; subst.
    rewrite Forall_forall in Hsub.
    assert (Hin : In (c, child) es).
    { clear - Hc. induction es as [|[k v] es IHes]; simpl in *; [discriminate|].
      destruct (String.eqb_spec c k) as [-> | _]; [injection Hc as ->; now left|].
      right; auto. }
    exact (Hsub _ Hin).
Qed.

(** X22: in a file system where no directory lists a name twice, the
    scanner returns no path twice: each file is found once, so the plan
    has no two tasks for it. *)
Theorem find_all_pdfs_finds_once : forall fs root_dir,
  distinct_names fs -> NoDup (find_all_pdfs fs root_dir).
Proof.
  intros fs root_dir Hd; unfold find_all_pdfs, os_walk.
  destruct (stat fs root_dir) as [t | e] eqn:Hstat; [|constructor].
  apply walk_finds_once. eapply stat_distinct_names; eauto.
Qed.

Lemma find_all_pdfs_finds_once_witness : NoDup (find_all_pdfs Scenario.tree ["in"]).
Proof.
  apply (find_all_pdfs_finds_once Scenario.tree ["in"]).
  repeat (constructor; simpl; try (intuition discriminate)).
Defined.
